(** * A two-pass MIPS assembler (assembler.py), embedded and verified

    The program reads assembly text, scans it once to collect labels and
    instruction records ([parse_source_code]), and then encodes every
    record as a string of binary digits ([instruction_to_machine_code]).

    Python values are modelled as follows.
    - [str] is [string]; a character is a code point in 0..255.
    - [int] is [Z] (Python integers are unbounded, nothing wraps).
    - the [labels] dictionary is a [gmap string Z]; assignment to a key is
      [insert], so a second definition of a label overwrites the first.
    - the [instructions] list is a [list (Z * string)], appended at the end.
    - an exception is a [Raise] in the [result] monad; a call that falls off
      the end of a function returns [None], written [Ok None].
    The two [print] calls of the encoder write to the console only and are
    left out; reading and writing files is outside the embedding, so
    [parse_source_code] takes the list that [readlines] returned. *)

From Stdlib Require Import ZArith Lia Ascii String.
From stdpp Require Import base strings list gmap.

Local Open Scope Z_scope.

(* String concatenation computes by [simpl] in the proofs below. *)
#[local] Arguments String.append !_ _ / : simpl nomatch.

(** ** Python built-ins used by the program *)

Module Py.

(** Exceptions the program can run into. *)
Inductive exn := ValueError | IndexError | KeyError.

Inductive result (A : Type) :=
| Ok (a : A)
| Raise (e : exn).
Global Arguments Ok {A} a.
Global Arguments Raise {A} e.

Definition bind {A B} (m : result A) (k : A → result B) : result B :=
  match m with
  | Ok a => k a
  | Raise e => Raise e
  end.

Definition ord (c : ascii) : N := N_of_ascii c.

(** [str.isspace] on one character; also what [\s] matches in [re]. *)
Definition isspace (c : ascii) : bool :=
  let n := ord c in
  ((9 <=? n) && (n <=? 13) || (28 <=? n) && (n <=? 32)
   || (n =? 133) || (n =? 160))%N.

(** [s.lstrip()], [s.rstrip()], [s.strip()]. *)
Fixpoint lstrip (s : string) : string :=
  match s with
  | String c s' => if isspace c then lstrip s' else s
  | EmptyString => EmptyString
  end.

Fixpoint rstrip (s : string) : string :=
  match s with
  | String c s' =>
      match rstrip s' with
      | EmptyString => if isspace c then EmptyString else String c EmptyString
      | r => String c r
      end
  | EmptyString => EmptyString
  end.

Definition strip (s : string) : string := rstrip (lstrip s).

(** [s.split(sep)] for a separator of one character; [tok] is the piece
    read so far. *)
Fixpoint split_from (sep : ascii) (tok s : string) : list string :=
  match s with
  | EmptyString => [tok]
  | String c s' =>
      if Ascii.eqb c sep then tok :: split_from sep EmptyString s'
      else split_from sep (tok +:+ String c EmptyString) s'
  end.

Definition split (sep : ascii) (s : string) : list string :=
  split_from sep EmptyString s.

(** [sep in s] for a separator of one character. *)
Fixpoint contains (sep : ascii) (s : string) : bool :=
  match s with
  | String c s' => Ascii.eqb c sep || contains sep s'
  | EmptyString => false
  end.

(** [l[k]] where the program has made sure that the index exists. *)
Definition item (l : list string) (k : nat) : string :=
  default EmptyString (l !! k).

(** [l[k]] in general: [IndexError] out of range. *)
Definition getitem (l : list string) (k : nat) : result string :=
  match l !! k with
  | Some x => Ok x
  | None => Raise IndexError
  end.

(** [d[k]] on a dictionary: [KeyError] when the key is absent. *)
Definition getkey {V} (d : gmap string V) (k : string) : result V :=
  match d !! k with
  | Some v => Ok v
  | None => Raise KeyError
  end.

(** [not s] on a string. *)
Definition is_empty (s : string) : bool :=
  match s with
  | EmptyString => true
  | String _ _ => false
  end.

(** [s[1:]]. *)
Definition tail (s : string) : string :=
  match s with
  | EmptyString => EmptyString
  | String _ s' => s'
  end.

(** [s.upper()]. Only the letters a..z are changed. Python also changes
    some characters above 127, to characters outside 0..255 or, for the
    sharp s, to SS; no mnemonic of the tables contains any of these, and
    the program only looks the result up in its tables, so every lookup
    comes out the same. *)
Definition upper_char (c : ascii) : ascii :=
  let n := ord c in
  if ((97 <=? n) && (n <=? 122))%N then ascii_of_N (n - 32) else c.

Fixpoint upper (s : string) : string :=
  match s with
  | EmptyString => EmptyString
  | String c s' => String (upper_char c) (upper s')
  end.

(** [re.split(r'[,\s]\s*', s)]: a comma or a white-space character starts a
    separator, which then takes all the white space that follows.
    [in_sep] holds while the separator may still grow. *)
Definition is_sep (c : ascii) : bool := Ascii.eqb c "," || isspace c.

Fixpoint re_split_from (in_sep : bool) (tok s : string) : list string :=
  match s with
  | EmptyString => [tok]
  | String c s' =>
      if in_sep && isspace c then re_split_from true tok s'
      else if is_sep c then tok :: re_split_from true EmptyString s'
      else re_split_from false (tok +:+ String c EmptyString) s'
  end.

Definition re_split (s : string) : list string :=
  re_split_from false EmptyString s.

(** [int(s)]: optional white space, an optional sign, decimal digits with
    single underscores allowed between two digits, optional white space.
    [None] stands for [ValueError]. The interpreter's configurable limit
    on the number of digits of a literal is not modelled. *)
Definition int_space (c : ascii) : bool :=
  let n := ord c in
  ((9 <=? n) && (n <=? 13) || (n =? 32) || (n =? 133) || (n =? 160))%N.

Definition is_digit (c : ascii) : bool :=
  let n := ord c in ((48 <=? n) && (n <=? 57))%N.

Definition digit_value (c : ascii) : Z := Z.of_N (ord c) - 48.

Fixpoint skip_int_space (s : string) : string :=
  match s with
  | String c s' => if int_space c then skip_int_space s' else s
  | EmptyString => EmptyString
  end.

Fixpoint all_int_space (s : string) : bool :=
  match s with
  | String c s' => int_space c && all_int_space s'
  | EmptyString => true
  end.

(** Reads on after a digit; [acc] is the value of the digits seen. *)
Fixpoint int_digits (acc : Z) (s : string) : option (Z * string) :=
  match s with
  | EmptyString => Some (acc, EmptyString)
  | String c s' =>
      if is_digit c then int_digits (10 * acc + digit_value c) s'
      else if Ascii.eqb c "_" then
        match s' with
        | String d s'' =>
            if is_digit d then int_digits (10 * acc + digit_value d) s''
            else None
        | EmptyString => None
        end
      else Some (acc, s)
  end.

Definition int_body (s : string) : option (Z * string) :=
  match s with
  | String c s' => if is_digit c then int_digits (digit_value c) s' else None
  | EmptyString => None
  end.

Definition int_signed (s : string) : bool * string :=
  match s with
  | String c s' =>
      if Ascii.eqb c "-" then (true, s')
      else if Ascii.eqb c "+" then (false, s')
      else (false, s)
  | EmptyString => (false, s)
  end.

Definition int_opt (s : string) : option Z :=
  let '(neg, body) := int_signed (skip_int_space s) in
  match int_body body with
  | Some (n, rest) =>
      if all_int_space rest then Some (if neg then - n else n) else None
  | None => None
  end.

Definition int (s : string) : result Z :=
  match int_opt s with
  | Some n => Ok n
  | None => Raise ValueError
  end.

(** [format(n, '0<width>b')]: the binary digits of [|n|], most significant
    first, filled with zeros on the left up to [width] characters; a
    negative number gets a minus sign in front, which counts in the
    width. Nothing is cut off when the digits need more room. *)
Fixpoint pos_bits (p : positive) : string :=
  match p with
  | xH => "1"
  | xO p' => pos_bits p' +:+ "0"
  | xI p' => pos_bits p' +:+ "1"
  end.

Definition nat_bits (n : Z) : string :=
  match n with
  | Zpos p => pos_bits p
  | _ => "0"
  end.

Fixpoint zeros (k : nat) : string :=
  match k with
  | O => EmptyString
  | S k' => String "0" (zeros k')
  end.

Definition zfill (width : nat) (digits : string) : string :=
  zeros (width - String.length digits) +:+ digits.

Definition format_b (width : nat) (n : Z) : string :=
  if n <? 0 then String "-" (zfill (width - 1) (nat_bits (- n)))
  else zfill width (nat_bits n).

End Py.

Export Py.

#[export] Instance result_bind : MBind result := λ A B k m, Py.bind m k.
#[export] Instance result_ret : MRet result := @Ok.

(** ** The assembler *)

(** [instruction_set]: for each of the three formats, the table from
    mnemonic to function code (R) or opcode (I, J). *)
Inductive format := R | I | J.

Definition instruction_set (f : format) : gmap string string :=
  match f with
  | R => list_to_map
           [("ADD", "100000"); ("SUB", "100010"); ("AND", "100100");
            ("OR", "100101"); ("SLL", "000000"); ("SRL", "000010");
            ("SLLV", "000100"); ("SRLV", "000110")]
  | I => list_to_map
           [("ADDI", "001000"); ("ANDI", "001100"); ("LW", "100011");
            ("SW", "101011"); ("BEQ", "000100"); ("BNE", "000101");
            ("BLEZ", "000110"); ("BGTZ", "000111")]
  | J => list_to_map [("J", "000010")]
  end.

(** [k in d] on a dictionary and [x in l] on a list of strings. *)
Definition in_dict {V} (k : string) (d : gmap string V) : bool :=
  bool_decide (is_Some (d !! k)).

Definition in_list (x : string) (l : list string) : bool :=
  bool_decide (x ∈ l).

(** *** The scan pass *)

(** The three local variables of the loop of [parse_source_code]. *)
Record scan_state := ScanState {
  labels : gmap string Z;
  instructions : list (Z * string);
  address : Z
}.

Definition base_address : Z := 0x00400000.

Definition scan_init : scan_state :=
  {| labels := ∅; instructions := []; address := base_address |}.

(** [line.split('#')[0].strip()] *)
Definition uncomment (line : string) : string :=
  strip (item (split "#" line) 0).

(** [line.split(':')[0].strip()] and [line.split(':')[1].strip()] *)
Definition label_part (line : string) : string :=
  strip (item (split ":" line) 0).

Definition instruction_part (line : string) : string :=
  strip (item (split ":" line) 1).

(** One turn of the loop. *)
Definition scan_line (st : scan_state) (line : string) : scan_state :=
  let line := uncomment line in
  if is_empty line then st
  else
    let labels' :=
      if contains ":" line
      then <[label_part line := address st]> (labels st)
      else labels st in
    let line :=
      if contains ":" line then instruction_part line else line in
    if is_empty line
    then {| labels := labels';
            instructions := instructions st;
            address := address st |}
    else {| labels := labels';
            instructions := instructions st ++ [(address st, line)];
            address := address st + 4 |}.

Definition scan (lines : list string) (st : scan_state) : scan_state :=
  fold_left scan_line lines st.

Definition parse_source_code (lines : list string)
  : gmap string Z * list (Z * string) :=
  let st := scan lines scan_init in
  (labels st, instructions st).

(** What one line contributes, read off the loop body: the label it binds
    and the instruction text it emits, if any. *)
Definition defined_label (line : string) : option string :=
  let line := uncomment line in
  if is_empty line then None
  else if contains ":" line then Some (label_part line) else None.

Definition emitted_text (line : string) : option string :=
  let line := uncomment line in
  if is_empty line then None
  else
    let line :=
      if contains ":" line then instruction_part line else line in
    if is_empty line then None else Some line.

(** Text that consists of white space only (possibly none at all). *)
Fixpoint all_space (s : string) : bool :=
  match s with
  | EmptyString => true
  | String c s' => isspace c && all_space s'
  end.

(** *** The encoder *)

Definition reg_to_bin (reg : string) : result string :=
  reg_num ← int (tail reg);
  Ok (format_b 5 reg_num).

Definition instruction_to_machine_code
    (instruction : string) (labels : gmap string Z) (current_address : Z)
  : result (option string) :=
  let parts := re_split instruction in
  let opcode := item parts 0 in
  let rest := drop 1 parts in
  if in_dict (upper opcode) (instruction_set R) then
    rd ← getitem rest 0 ≫= reg_to_bin;
    rs ← getitem rest 1 ≫= reg_to_bin;
    rt ← getitem rest 2 ≫= reg_to_bin;
    shamt ← (if in_list (upper opcode) ["SLL"; "SRL"]
             then n ← getitem rest 3 ≫= int; Ok (format_b 5 n)
             else Ok "00000");
    funct ← getkey (instruction_set R) (upper opcode);
    Ok (Some ("000000" +:+ rs +:+ rt +:+ rd +:+ shamt +:+ funct))
  else if in_dict (upper opcode) (instruction_set I) then
    rt ← getitem rest 0 ≫= reg_to_bin;
    rs ← getitem rest 1 ≫= reg_to_bin;
    if in_list (upper opcode) ["LW"; "SW"] then
      offset ← getitem rest 2 ≫= int;
      op ← getkey (instruction_set I) (upper opcode);
      Ok (Some (op +:+ rs +:+ rt +:+ format_b 16 offset))
    else if in_list (upper opcode) ["BEQ"; "BNE"] then
      target ← getitem rest 2 ≫= getkey labels;
      let offset := Z.shiftr (target - current_address - 4) 2 in
      op ← getkey (instruction_set I) (upper opcode);
      Ok (Some (op +:+ rs +:+ rt +:+ format_b 16 (Z.land offset 0xFFFF)))
    else
      n ← getitem rest 2 ≫= int;
      let immediate := Z.land n 0xFFFF in
      op ← getkey (instruction_set I) (upper opcode);
      Ok (Some (op +:+ rs +:+ rt +:+ format_b 16 immediate))
  else if in_dict (upper opcode) (instruction_set J) then
    target ← getitem rest 0 ≫= getkey labels;
    let address := Z.shiftr target 2 in
    op ← getkey (instruction_set J) (upper opcode);
    Ok (Some (op +:+ format_b 26 address))
  else Ok None.

(** [assemble] without its file handling: the pairs of address and
    encoder outcome, in program order. An exception of the encoder ends
    the run; a [None] is written out like any other outcome. *)
Fixpoint encode_all (labels : gmap string Z) (records : list (Z * string))
  : result (list (Z * option string)) :=
  match records with
  | [] => Ok []
  | (address, instruction) :: records' =>
      machine_code ← instruction_to_machine_code instruction labels address;
      more ← encode_all labels records';
      Ok ((address, machine_code) :: more)
  end.

Definition assemble (lines : list string)
  : result (list (Z * option string)) :=
  let '(labels, instructions) := parse_source_code lines in
  encode_all labels instructions.

(** ** Reading binary fields back *)

(** A field is well formed when it consists of the digits 0 and 1 only. *)
Definition is_bit (c : ascii) : bool := Ascii.eqb c "0" || Ascii.eqb c "1".

Fixpoint is_bits (s : string) : bool :=
  match s with
  | EmptyString => true
  | String c s' => is_bit c && is_bits s'
  end.

(** The number a string of binary digits stands for, continuing from the
    value [acc] of the digits to its left. *)
Fixpoint bin_value_from (acc : Z) (s : string) : Z :=
  match s with
  | EmptyString => acc
  | String c s' => bin_value_from (2 * acc + (if Ascii.eqb c "1" then 1 else 0)) s'
  end.

Definition bin_value (s : string) : Z := bin_value_from 0 s.

(** A field of [width] binary digits that stands for [n]. *)
Definition field (width : nat) (n : Z) (s : string) : Prop :=
  String.length s = width ∧ is_bits s = true ∧ bin_value s = n.

(** A 16-bit field read as a two's-complement number. *)
Definition signed16 (v : Z) : Z := if v <? 2 ^ 15 then v else v - 2 ^ 16.

(** The token [tok] names register number [n]: the text after its first
    character reads as [n], and [n] fits in five bits. *)
Definition register (tok : string) (n : Z) : Prop :=
  int_opt (tail tok) = Some n ∧ 0 ≤ n ≤ 31.

(** ** Invariants of the scan pass *)

(** The address counter is the base plus four times the number of records,
    and every record carries the counter of its time. *)
Definition addressed (st : scan_state) : Prop :=
  address st = base_address + 4 * Z.of_nat (List.length (instructions st))
  ∧ (instructions st).*1
    = (λ i : nat, base_address + 4 * Z.of_nat i)
        <$> seq 0 (List.length (instructions st)).

(** Every bound address is the base plus a multiple of four. *)
Definition labels_aligned (st : scan_state) : Prop :=
  ∀ lbl a, labels st !! lbl = Some a →
    ∃ k : nat, a = base_address + 4 * Z.of_nat k.

(** ** The output of [assemble] *)

(** [format(n, '0<width>X')]: as [format_b], with the sixteen digits
    0..9, A..F. [hex_from] puts the digits of [n] in front of [acc], the
    last digit first; a number has at most one more digit than its binary
    logarithm, which is the fuel [nat_hex] gives. *)
Definition hex_digit (d : Z) : ascii :=
  ascii_of_N (Z.to_N (if d <? 10 then 48 + d else 55 + d)).

Fixpoint hex_from (fuel : nat) (n : Z) (acc : string) : string :=
  match fuel with
  | O => acc
  | S fuel' =>
      let acc' := String (hex_digit (n `mod` 16)) acc in
      if n <? 16 then acc' else hex_from fuel' (n `div` 16) acc'
  end.

Definition nat_hex (n : Z) : string :=
  hex_from (S (Z.to_nat (Z.log2 n))) n EmptyString.

Definition format_X (width : nat) (n : Z) : string :=
  if n <? 0 then String "-" (zfill (width - 1) (nat_hex (- n)))
  else zfill width (nat_hex n).

(** Reading hexadecimal digits back. *)
Definition hex_digit_value (c : ascii) : Z :=
  if is_digit c then Z.of_N (ord c) - 48 else Z.of_N (ord c) - 55.

Fixpoint hex_value_from (acc : Z) (s : string) : Z :=
  match s with
  | EmptyString => acc
  | String c s' => hex_value_from (16 * acc + hex_digit_value c) s'
  end.

Definition hex_value (s : string) : Z := hex_value_from 0 s.

(** Text made of the digits 0..9 and A..F only. *)
Definition is_hex_digit (c : ascii) : bool :=
  let n := ord c in
  ((48 <=? n) && (n <=? 57) || (65 <=? n) && (n <=? 70))%N.

Fixpoint is_hex (s : string) : bool :=
  match s with
  | EmptyString => true
  | String c s' => is_hex_digit c && is_hex s'
  end.

(** What the f-string of [assemble] makes of the encoder's outcome. *)
Definition str_of (machine_code : option string) : string :=
  match machine_code with
  | Some s => s
  | None => "None"
  end.

Definition newline : ascii := ascii_of_N 10.

(** [f'{format(address, "08X")}: {machine_code}\n'] *)
Definition render_line (address : Z) (machine_code : option string) : string :=
  format_X 8 address +:+ ": " +:+ str_of machine_code +:+ String newline EmptyString.

(** The loop of [assemble] with what it has written: the lines that reached
    the output file, and the exception that ended the loop, if any. The
    [with] block closes the file on the way out, so the lines written
    before an exception stay in the file. *)
Fixpoint write_all (labels : gmap string Z) (records : list (Z * string))
  : list string * option exn :=
  match records with
  | [] => ([], None)
  | (address, instruction) :: records' =>
      match instruction_to_machine_code instruction labels address with
      | Ok machine_code =>
          let '(written, raised) := write_all labels records' in
          (render_line address machine_code :: written, raised)
      | Raise e => ([], Some e)
      end
  end.

Definition assemble_output (lines : list string) : list string * option exn :=
  let '(labels, instructions) := parse_source_code lines in
  write_all labels instructions.

(** [old in s] and [s.replace(old, new)] for a non-empty [old]: the
    occurrences are replaced from the left, and the search goes on behind
    each one; [skip] counts the characters of an occurrence that are still
    to be passed over. *)
Fixpoint occurs (old s : string) : bool :=
  String.prefix old s
  || match s with
     | EmptyString => false
     | String _ s' => occurs old s'
     end.

Fixpoint replace_from (skip : nat) (old new s : string) : string :=
  match s with
  | EmptyString => EmptyString
  | String c s' =>
      match skip with
      | S skip' => replace_from skip' old new s'
      | O =>
          if String.prefix old s
          then new +:+ replace_from (String.length old - 1) old new s'
          else String c (replace_from 0 old new s')
      end
  end.

Definition replace (old new s : string) : string := replace_from 0 old new s.

(** [filename.replace('.asm', '.obj')] *)
Definition output_filename (filename : string) : string :=
  replace ".asm" ".obj" filename.

(** Text with a comma or a white-space character in it. *)
Fixpoint has_sep (s : string) : bool :=
  match s with
  | EmptyString => false
  | String c s' => is_sep c || has_sep s'
  end.

(** ** Binary fields written by [format_b] *)

Section Fields.

Lemma str_length_app (a b : string) :
  String.length (a +:+ b) = (String.length a + String.length b)%nat.
Proof. induction a as [|c a IH]; simpl; [done | by rewrite IH]. Qed.

Lemma is_bits_app (a b : string) :
  is_bits (a +:+ b) = is_bits a && is_bits b.
Proof.
  induction a as [|c a IH]; simpl; [done|].
  rewrite IH. by destruct (is_bit c).
Qed.

Lemma bin_value_from_app (a b : string) (acc : Z) :
  bin_value_from acc (a +:+ b) = bin_value_from (bin_value_from acc a) b.
Proof. revert acc. induction a as [|c a IH]; intros acc; simpl; [done | apply IH]. Qed.

Lemma bin_value_from_shift (s : string) (acc : Z) :
  bin_value_from acc s = acc * 2 ^ Z.of_nat (String.length s) + bin_value s.
Proof.
  unfold bin_value. revert acc.
  induction s as [|c s IH]; intros acc.
  - simpl. lia.
  - cbn [bin_value_from String.length].
    rewrite IH, (IH (2 * 0 + _)).
    rewrite Nat2Z.inj_succ, Z.pow_succ_r by lia. lia.
Qed.

(** The value of a concatenation: the left part moves up by the width of
    the right part. *)
Lemma bin_value_app (a b : string) :
  bin_value (a +:+ b) = bin_value a * 2 ^ Z.of_nat (String.length b) + bin_value b.
Proof.
  unfold bin_value at 1. rewrite bin_value_from_app.
  by rewrite bin_value_from_shift.
Qed.

Lemma pos_bits_is_bits (p : positive) : is_bits (pos_bits p) = true.
Proof. induction p; simpl; rewrite ?is_bits_app, ?IHp; done. Qed.

Lemma pos_bits_value (p : positive) : bin_value (pos_bits p) = Z.pos p.
Proof.
  induction p as [p IH|p IH|]; simpl pos_bits; [| |done].
  all: rewrite bin_value_app, IH.
  - change (bin_value "1") with 1.
    change (Z.of_nat (String.length "1")) with 1. lia.
  - change (bin_value "0") with 0.
    change (Z.of_nat (String.length "0")) with 1. lia.
Qed.

(** The digits of [p] are as many as [p] needs and no more. *)
Lemma pos_bits_length (p : positive) :
  2 ^ (Z.of_nat (String.length (pos_bits p)) - 1) ≤ Z.pos p
  < 2 ^ Z.of_nat (String.length (pos_bits p)).
Proof.
  induction p as [p IH|p IH|]; simpl pos_bits; [| |simpl; lia].
  all: rewrite str_length_app; simpl String.length.
  all: replace (Z.of_nat (String.length (pos_bits p) + 1) - 1)
         with (Z.succ (Z.of_nat (String.length (pos_bits p)) - 1)) by lia.
  all: replace (Z.of_nat (String.length (pos_bits p) + 1))
         with (Z.succ (Z.of_nat (String.length (pos_bits p)))) by lia.
  all: assert (0 < String.length (pos_bits p))%nat
         by (destruct p; simpl; rewrite ?str_length_app; simpl; lia).
  all: rewrite !Z.pow_succ_r by lia; lia.
Qed.

Lemma nat_bits_is_bits (n : Z) : is_bits (nat_bits n) = true.
Proof. destruct n; simpl; auto using pos_bits_is_bits. Qed.

Lemma nat_bits_value (n : Z) : 0 ≤ n → bin_value (nat_bits n) = n.
Proof.
  destruct n as [|p|p]; intros Hn; simpl nat_bits.
  - done.
  - apply pos_bits_value.
  - lia.
Qed.

Lemma nat_bits_length (n : Z) (w : nat) :
  0 ≤ n < 2 ^ Z.of_nat w → (0 < w)%nat →
  (String.length (nat_bits n) ≤ w)%nat.
Proof.
  intros [Hn Hw] Hpos. destruct n as [|p|p]; simpl; [lia| |lia].
  destruct (pos_bits_length p) as [Hlo _].
  destruct (decide (String.length (pos_bits p) ≤ w)%nat) as [|Hgt]; [done|].
  exfalso.
  assert (2 ^ Z.of_nat w ≤ 2 ^ (Z.of_nat (String.length (pos_bits p)) - 1))
    by (apply Z.pow_le_mono_r; lia).
  lia.
Qed.

Lemma zeros_length (k : nat) : String.length (zeros k) = k.
Proof. induction k; simpl; congruence. Qed.

Lemma zeros_is_bits (k : nat) : is_bits (zeros k) = true.
Proof. induction k; simpl; done. Qed.

Lemma zeros_value (k : nat) : bin_value (zeros k) = 0.
Proof.
  unfold bin_value. induction k; simpl; [done|].
  by rewrite bin_value_from_shift in *.
Qed.

Lemma zfill_length (w : nat) (d : string) :
  String.length (zfill w d) = (w `max` String.length d)%nat.
Proof. unfold zfill. rewrite str_length_app, zeros_length. lia. Qed.

Lemma zfill_is_bits (w : nat) (d : string) :
  is_bits (zfill w d) = is_bits d.
Proof. unfold zfill. by rewrite is_bits_app, zeros_is_bits. Qed.

Lemma zfill_value (w : nat) (d : string) :
  bin_value (zfill w d) = bin_value d.
Proof. unfold zfill. rewrite bin_value_app, zeros_value. lia. Qed.

(** A number that fits in [w] bits is written as exactly [w] binary
    digits that stand for it. *)
Lemma format_b_field (w : nat) (n : Z) :
  (0 < w)%nat → 0 ≤ n < 2 ^ Z.of_nat w → field w n (format_b w n).
Proof.
  intros Hw Hn. unfold field, format_b.
  destruct (Z.ltb_spec n 0) as [|_]; [lia|].
  rewrite zfill_length, zfill_is_bits, zfill_value.
  pose proof (nat_bits_length n w Hn Hw).
  split_and!; [lia | apply nat_bits_is_bits | by apply nat_bits_value; lia].
Qed.

(** A number that does not fit is written with more digits than [w]. *)
Lemma format_b_overflow (w : nat) (n : Z) :
  2 ^ Z.of_nat w ≤ n → (w < String.length (format_b w n))%nat.
Proof.
  intros Hn. unfold format_b.
  assert (0 < 2 ^ Z.of_nat w) by (apply Z.pow_pos_nonneg; lia).
  destruct (Z.ltb_spec n 0) as [|_]; [lia|].
  rewrite zfill_length.
  destruct n as [|p|p]; [lia| |lia]. simpl.
  destruct (pos_bits_length p) as [_ Hhi].
  destruct (decide (w < String.length (pos_bits p))%nat) as [|Hle]; [lia|].
  exfalso.
  assert (2 ^ Z.of_nat (String.length (pos_bits p)) ≤ 2 ^ Z.of_nat w)
    by (apply Z.pow_le_mono_r; lia).
  lia.
Qed.

(** A negative number is written with a minus sign. *)
Lemma format_b_negative (w : nat) (n : Z) :
  n < 0 → is_bits (format_b w n) = false.
Proof.
  intros Hn. unfold format_b.
  destruct (Z.ltb_spec n 0) as [_|]; [done | lia].
Qed.

End Fields.

(** ** Facts about the string operations *)

Section Text.

Lemma str_app_empty_r (s : string) : s +:+ "" = s.
Proof. induction s as [|c s IH]; simpl; congruence. Qed.

Lemma str_app_assoc (a b c : string) : (a +:+ b) +:+ c = a +:+ b +:+ c.
Proof. induction a as [|x a IH]; simpl; congruence. Qed.

(** [split] never returns an empty list, so index 0 always exists. *)
Lemma split_from_length (sep : ascii) (tok s : string) :
  (0 < List.length (split_from sep tok s))%nat.
Proof.
  revert tok. induction s as [|c s IH]; intros tok; simpl; [lia|].
  destruct (Ascii.eqb c sep); simpl; [lia | apply IH].
Qed.

(** When the separator occurs, index 1 exists as well. *)
Lemma split_from_contains (sep : ascii) (tok s : string) :
  contains sep s = true → (1 < List.length (split_from sep tok s))%nat.
Proof.
  revert tok. induction s as [|c s IH]; intros tok; simpl; [done|].
  destruct (Ascii.eqb c sep); simpl; intros H.
  - pose proof (split_from_length sep "" s). lia.
  - by apply IH.
Qed.

(** The first piece of a split is the piece read so far followed by the
    first piece of what remains. *)
Lemma split_from_first (sep : ascii) (tok s : string) :
  item (split_from sep tok s) 0 = tok +:+ item (split sep s) 0.
Proof.
  unfold split. revert tok.
  induction s as [|c s IH]; intros tok; simpl.
  - unfold item. simpl. by rewrite str_app_empty_r.
  - destruct (Ascii.eqb c sep).
    + unfold item. simpl. by rewrite str_app_empty_r.
    + rewrite IH, (IH (String c "")). by rewrite str_app_assoc.
Qed.

Lemma split_first_cons (sep c : ascii) (s : string) :
  c ≠ sep →
  item (split sep (String c s)) 0 = String c (item (split sep s) 0).
Proof.
  intros Hc. unfold split. simpl.
  destruct (Ascii.eqb_spec c sep) as [|_]; [done|].
  by rewrite split_from_first.
Qed.

Lemma split_first_sep (sep : ascii) (s : string) :
  item (split sep (String sep s)) 0 = "".
Proof. unfold split. simpl. by rewrite Ascii.eqb_refl. Qed.

Lemma split_first_app (sep : ascii) (a b : string) :
  contains sep a = false →
  item (split sep (a +:+ b)) 0 = a +:+ item (split sep b) 0.
Proof.
  induction a as [|c a IH]; simpl; [done|].
  destruct (Ascii.eqb_spec c sep) as [|Hc]; [done|]. simpl. intros Ha.
  rewrite split_first_cons by done. by rewrite IH.
Qed.

(** The second piece of a split: what lies between the first and the
    second separator. *)
Lemma split_from_second (sep : ascii) (tok a b : string) :
  contains sep a = false →
  item (split_from sep tok (a +:+ String sep b)) 1 = item (split sep b) 0.
Proof.
  revert tok. induction a as [|c a IH]; intros tok; simpl.
  - intros _. rewrite Ascii.eqb_refl. done.
  - destruct (Ascii.eqb_spec c sep) as [|Hc]; [done|]. simpl. apply IH.
Qed.

(** [re.split] never returns an empty list either. *)
Lemma re_split_from_length (in_sep : bool) (tok s : string) :
  (0 < List.length (re_split_from in_sep tok s))%nat.
Proof.
  revert in_sep tok. induction s as [|c s IH]; intros in_sep tok; simpl; [lia|].
  destruct (in_sep && isspace c); [apply IH|].
  destruct (is_sep c); simpl; [lia | apply IH].
Qed.

Lemma contains_app (sep : ascii) (a b : string) :
  contains sep (a +:+ b) = contains sep a || contains sep b.
Proof.
  induction a as [|c a IH]; simpl; [done|].
  rewrite IH. by destruct (Ascii.eqb c sep).
Qed.

Lemma all_space_no (sep : ascii) (s : string) :
  isspace sep = false → all_space s = true → contains sep s = false.
Proof.
  intros Hsep. induction s as [|c s IH]; simpl; [done|].
  destruct (Ascii.eqb_spec c sep) as [->|_]; [by rewrite Hsep|].
  destruct (isspace c); simpl; [apply IH | done].
Qed.

Lemma lstrip_app (a : string) (c : ascii) (b : string) :
  isspace c = false → lstrip (a +:+ String c b) = lstrip a +:+ String c b.
Proof.
  intros Hc. induction a as [|x a IH]; simpl; [by rewrite Hc|].
  by destruct (isspace x).
Qed.

Lemma lstrip_all_space (s : string) : all_space s = true → lstrip s = "".
Proof.
  induction s as [|c s IH]; simpl; [done|].
  destruct (isspace c); simpl; [apply IH | done].
Qed.

Lemma rstrip_all_space (s : string) : all_space s = true → rstrip s = "".
Proof.
  induction s as [|c s IH]; simpl; [done|].
  destruct (isspace c); simpl; [|done].
  intros H. by rewrite IH.
Qed.

Lemma rstrip_cons (c : ascii) (s : string) :
  isspace c = false → rstrip (String c s) = String c (rstrip s).
Proof. intros Hc. simpl. rewrite Hc. by destruct (rstrip s). Qed.

Lemma rstrip_app (a : string) (c : ascii) (b : string) :
  isspace c = false → rstrip (a +:+ String c b) = a +:+ String c (rstrip b).
Proof.
  intros Hc. induction a as [|x a IH]; [by apply rstrip_cons|].
  cbn [String.append rstrip]. rewrite IH.
  by destruct a.
Qed.

Lemma rstrip_all_space_app (a b : string) :
  all_space b = true → rstrip (a +:+ b) = rstrip a.
Proof.
  intros Hb. induction a as [|x a IH]; [by apply rstrip_all_space|].
  cbn [String.append rstrip]. by rewrite IH.
Qed.

Lemma all_space_lstrip (s : string) :
  all_space s = true → all_space (lstrip s) = true.
Proof. intros H. by rewrite lstrip_all_space. Qed.

End Text.

(** ** The scan pass *)

Section Scan.

(** The loop body, told through what the line contributes. *)
Lemma scan_line_view (st : scan_state) (line : string) :
  scan_line st line =
    {| labels := match defined_label line with
                 | Some lbl => <[lbl := address st]> (labels st)
                 | None => labels st
                 end;
       instructions := match emitted_text line with
                       | Some text => instructions st ++ [(address st, text)]
                       | None => instructions st
                       end;
       address := match emitted_text line with
                  | Some _ => address st + 4
                  | None => address st
                  end |}.
Proof.
  unfold scan_line, defined_label, emitted_text.
  destruct (is_empty (uncomment line)); [by destruct st|].
  destruct (contains ":" (uncomment line)).
  - by destruct (is_empty (instruction_part (uncomment line))).
  - by destruct (is_empty (uncomment line)).
Qed.

Lemma scan_app (l1 l2 : list string) (st : scan_state) :
  scan (l1 ++ l2) st = scan l2 (scan l1 st).
Proof. apply fold_left_app. Qed.

Lemma scan_cons (line : string) (l : list string) (st : scan_state) :
  scan (line :: l) st = scan l (scan_line st line).
Proof. done. Qed.

Lemma addressed_init : addressed scan_init.
Proof. by split. Qed.

Lemma addressed_scan_line (st : scan_state) (line : string) :
  addressed st → addressed (scan_line st line).
Proof.
  intros [Ha Hl]. rewrite scan_line_view. unfold addressed. simpl.
  destruct (emitted_text line) as [text|]; [|done].
  rewrite length_app. simpl. split; [lia|].
  rewrite Nat.add_1_r, seq_S, !fmap_app, <- Hl. simpl.
  by rewrite Ha.
Qed.

Lemma addressed_scan (lines : list string) (st : scan_state) :
  addressed st → addressed (scan lines st).
Proof.
  revert st. induction lines as [|line lines IH]; intros st Hst; [done|].
  rewrite scan_cons. by apply IH, addressed_scan_line.
Qed.

(** The records only grow, at the end. *)
Lemma scan_instructions_grow (lines : list string) (st : scan_state) :
  ∃ later, instructions (scan lines st) = instructions st ++ later.
Proof.
  revert st. induction lines as [|line lines IH]; intros st.
  - exists []. simpl. by rewrite app_nil_r.
  - rewrite scan_cons. destruct (IH (scan_line st line)) as [later ->].
    rewrite scan_line_view. simpl.
    destruct (emitted_text line) as [text|]; [|by eexists].
    rewrite <- app_assoc. by eexists.
Qed.

(** A binding stays as it is while no later line binds the label again. *)
Lemma scan_labels_keep (lines : list string) (st : scan_state) (lbl : string) :
  (∀ l, l ∈ lines → defined_label l ≠ Some lbl) →
  labels (scan lines st) !! lbl = labels st !! lbl.
Proof.
  revert st. induction lines as [|line lines IH]; intros st Hno; [done|].
  rewrite scan_cons, IH by (intros l Hl; apply Hno; by right).
  rewrite scan_line_view. simpl.
  destruct (defined_label line) as [lbl'|] eqn:Hd; [|done].
  apply lookup_insert_ne. intros ->.
  by apply (Hno line); [left|].
Qed.

Lemma labels_aligned_scan (lines : list string) (st : scan_state) :
  addressed st → labels_aligned st → labels_aligned (scan lines st).
Proof.
  revert st. induction lines as [|line lines IH]; intros st Hst Hal; [done|].
  rewrite scan_cons. apply IH; [by apply addressed_scan_line|].
  rewrite scan_line_view. intros lbl a. simpl.
  destruct (defined_label line) as [lbl'|]; [|apply Hal].
  destruct (decide (lbl' = lbl)) as [->|Hne].
  - rewrite lookup_insert_eq. intros [= <-].
    destruct Hst as [-> _]. by eexists.
  - rewrite lookup_insert_ne by done. apply Hal.
Qed.

Lemma parse_labels_aligned (lines : list string) (lbl : string) (a : Z) :
  (parse_source_code lines).1 !! lbl = Some a →
  ∃ k : nat, a = base_address + 4 * Z.of_nat k.
Proof.
  apply (labels_aligned_scan lines scan_init addressed_init).
  intros ? ?. simpl. by rewrite lookup_empty.
Qed.

Lemma parse_instructions_aligned (lines : list string) (a : Z) (text : string) :
  (a, text) ∈ (parse_source_code lines).2 →
  ∃ k : nat, a = base_address + 4 * Z.of_nat k.
Proof.
  intros Hin.
  destruct (addressed_scan lines scan_init addressed_init) as [_ Hl].
  assert (a ∈ (instructions (scan lines scan_init)).*1) as Ha
    by (apply list_elem_of_fmap; by exists (a, text)).
  rewrite Hl in Ha. apply list_elem_of_fmap in Ha as (k & -> & _).
  by exists k.
Qed.

End Scan.

(** ** Lines that carry a label *)

Section LabelLines.

Lemma lstrip_idemp (s : string) : lstrip (lstrip s) = lstrip s.
Proof.
  induction s as [|c s IH]; simpl; [done|].
  destruct (isspace c) eqn:Hc; [done|]. simpl. by rewrite Hc.
Qed.

Lemma contains_lstrip (sep : ascii) (s : string) :
  contains sep s = false → contains sep (lstrip s) = false.
Proof.
  induction s as [|c s IH]; simpl; [done|].
  destruct (isspace c); [|done].
  destruct (Ascii.eqb c sep); [done | apply IH].
Qed.

(** Where the comment is cut off: a line [name:rest] keeps its name and
    its colon, and of [rest] what stands before the first [#]. *)
Lemma uncomment_label_line (name rest : string) :
  contains "#" name = false →
  uncomment (name +:+ ":" +:+ rest)
  = lstrip name +:+ String ":" (rstrip (item (split "#" rest) 0)).
Proof.
  intros Hname. unfold uncomment, strip.
  change (":" +:+ rest) with (String ":" rest).
  rewrite split_first_app by done.
  rewrite split_first_cons by done.
  rewrite lstrip_app by done. by rewrite rstrip_app.
Qed.

(** A line made of a name, a colon and nothing but white space or a
    comment binds the stripped name and emits nothing. *)
Lemma label_only_line (name rest : string) :
  contains ":" name = false →
  contains "#" name = false →
  all_space (item (split "#" rest) 0) = true →
  defined_label (name +:+ ":" +:+ rest) = Some (strip name)
  ∧ emitted_text (name +:+ ":" +:+ rest) = None.
Proof.
  intros Hcolon Hhash Hrest. unfold defined_label, emitted_text.
  rewrite uncomment_label_line by done.
  rewrite (rstrip_all_space _ Hrest).
  assert (is_empty (lstrip name +:+ ":") = false) as ->
    by (by destruct (lstrip name)).
  assert (contains ":" (lstrip name +:+ ":") = true) as ->
    by (rewrite contains_app; simpl; by rewrite orb_true_r).
  pose proof (contains_lstrip ":" name Hcolon) as Hc.
  unfold label_part, instruction_part, split.
  rewrite split_from_second by done.
  fold (split ":" (lstrip name +:+ ":")).
  rewrite split_first_app, split_first_sep by done.
  rewrite str_app_empty_r. unfold strip. by rewrite lstrip_idemp.
Qed.

(** A line that has only white space before its first colon binds the
    empty name. *)
Lemma blank_label_line (ws rest : string) :
  all_space ws = true → defined_label (ws +:+ ":" +:+ rest) = Some "".
Proof.
  intros Hws. unfold defined_label.
  rewrite uncomment_label_line by (by apply all_space_no).
  rewrite lstrip_all_space by done. simpl.
  by unfold label_part, split.
Qed.

End LabelLines.

(** ** Where a bound address comes from *)

Section BoundAddresses.

(** Every entry of the label table was bound by some line, and there is a
    last such line. *)
Lemma last_definition (lines : list string) (lbl : string) (a : Z) :
  (parse_source_code lines).1 !! lbl = Some a →
  ∃ pre line post,
    lines = pre ++ line :: post
    ∧ defined_label line = Some lbl
    ∧ Forall (λ l, defined_label l ≠ Some lbl) post.
Proof.
  unfold parse_source_code. cbn [fst].
  induction lines as [|line lines IH] using rev_ind.
  - simpl. by rewrite lookup_empty.
  - rewrite scan_app, scan_cons. unfold scan at 1. cbn [fold_left].
    rewrite scan_line_view. cbn [labels].
    destruct (decide (defined_label line = Some lbl)) as [Hdef|Hno].
    + intros _. by exists lines, line, [].
    + assert (labels (scan lines scan_init) !! lbl = Some a →
              ∃ pre line0 post,
                lines ++ [line] = pre ++ line0 :: post
                ∧ defined_label line0 = Some lbl
                ∧ Forall (λ l, defined_label l ≠ Some lbl) post) as Hstep.
      { intros H. destruct (IH H) as (pre & line0 & post & -> & Hdef & Hpost).
        exists pre, line0, (post ++ [line]). split_and!; [|done|].
        - by rewrite <- app_assoc.
        - apply Forall_app. split; [done|]. by constructor. }
      destruct (defined_label line) as [lbl'|]; [|done].
      rewrite lookup_insert_ne by congruence. done.
Qed.

(** The address bound by the last line that defines a label is the
    counter at that line, and the first record emitted from that line on
    carries it. *)
Lemma bound_address (pre post : list string) (line lbl : string) :
  defined_label line = Some lbl →
  Forall (λ l, defined_label l ≠ Some lbl) post →
  let before := scan pre scan_init in
  let parsed := parse_source_code (pre ++ line :: post) in
  address before
  = base_address + 4 * Z.of_nat (List.length (parse_source_code pre).2)
  ∧ parsed.1 !! lbl = Some (address before)
  ∧ ∃ later, parsed.2 = (parse_source_code pre).2 ++ later
      ∧ match later with
        | (a, _) :: _ => a = address before
        | [] => address before
                = base_address + 4 * Z.of_nat (List.length parsed.2)
        end.
Proof.
  intros Hdef Hpost before parsed.
  pose proof (addressed_scan pre scan_init addressed_init) as [Hbefore _].
  fold before in Hbefore.
  split_and!.
  - done.
  - unfold parsed, parse_source_code. simpl.
    rewrite scan_app, scan_cons. fold before.
    rewrite scan_labels_keep by (intros l Hl; eapply Forall_forall in Hpost; eauto).
    rewrite scan_line_view, Hdef. simpl. apply lookup_insert_eq.
  - unfold parsed, parse_source_code. simpl.
    rewrite scan_app, scan_cons. fold before.
    destruct (scan_instructions_grow post (scan_line before line)) as [more Hmore].
    destruct (addressed_scan post (scan_line before line)) as [_ Hl].
    { apply addressed_scan_line, (addressed_scan pre scan_init addressed_init). }
    rewrite Hmore in *. clear Hmore.
    rewrite scan_line_view in *. simpl in *.
    destruct (emitted_text line) as [text|].
    + exists ((address before, text) :: more).
      by rewrite <- app_assoc.
    + exists more. split; [done|].
      destruct more as [|[a text] more]; [by rewrite app_nil_r|].
      rewrite fmap_app, length_app, seq_app, fmap_app in Hl.
      apply app_inj_1 in Hl as [_ Hl]; [|by rewrite !length_fmap, length_seq].
      simpl in Hl. injection Hl as -> _. lia.
Qed.

End BoundAddresses.

(** ** The claims on the scan pass *)

(** C2. For every sequence of source lines, the record at index [i] of the
    instruction list that the scan pass returns has the address
    [0x00400000 + 4 * i]: the addresses start at the base and go up by
    four from one record to the next. *)
Theorem instruction_addresses (lines : list string) :
  (parse_source_code lines).2.*1
  = (λ i : nat, 0x00400000 + 4 * Z.of_nat i)
      <$> seq 0 (List.length (parse_source_code lines).2).
Proof. apply (addressed_scan lines scan_init addressed_init). Qed.

(** C8. A line that consists of a label only (a name, a colon, and then
    nothing but white space or a comment) binds the stripped name to the
    current address and changes nothing else: no record is emitted and
    the address counter stays. The same holds for every line that binds a
    label and emits no text. Hence every address found in the label table
    is the address of the first record emitted from the label's (last)
    line on; when no record follows that line, it is the address the next
    record would get. *)
Theorem label_address_is_next_instruction :
  (∀ (st : scan_state) (name rest : string),
     contains ":" name = false → contains "#" name = false →
     all_space (item (split "#" rest) 0) = true →
     scan_line st (name +:+ ":" +:+ rest)
     = {| labels := <[strip name := address st]> (labels st);
          instructions := instructions st;
          address := address st |})
  ∧ (∀ (st : scan_state) (line lbl : string),
       defined_label line = Some lbl → emitted_text line = None →
       scan_line st line
       = {| labels := <[lbl := address st]> (labels st);
            instructions := instructions st;
            address := address st |})
  ∧ (∀ (lines : list string) (lbl : string) (a : Z),
       (parse_source_code lines).1 !! lbl = Some a →
       ∃ pre line post later,
         lines = pre ++ line :: post
         ∧ defined_label line = Some lbl
         ∧ a = base_address
               + 4 * Z.of_nat (List.length (parse_source_code pre).2)
         ∧ (parse_source_code lines).2 = (parse_source_code pre).2 ++ later
         ∧ match later with
           | (a', _) :: _ => a' = a
           | [] => a = base_address
                       + 4 * Z.of_nat (List.length (parse_source_code lines).2)
           end).
Proof.
  split_and!.
  - intros st name rest Hcolon Hhash Hrest.
    destruct (label_only_line name rest Hcolon Hhash Hrest) as [Hdef Hnone].
    by rewrite scan_line_view, Hdef, Hnone.
  - intros st line lbl Hdef Hnone. by rewrite scan_line_view, Hdef, Hnone.
  - intros lines lbl a Hlbl.
    destruct (last_definition lines lbl a Hlbl)
      as (pre & line & post & -> & Hdef & Hpost).
    destruct (bound_address pre post line lbl Hdef Hpost)
      as (Hbefore & Hbound & later & Hlater & Hnext).
    rewrite Hbound in Hlbl. injection Hlbl as <-.
    exists pre, line, post, later. split_and!; done.
Qed.

Lemma label_address_is_next_instruction_witness :
  scan_line scan_init "LOOP:  # top of the loop"
  = {| labels := <["LOOP" := 0x00400000]> ∅;
       instructions := [];
       address := 0x00400000 |}
  ∧ scan_line scan_init "END :"
    = {| labels := <["END" := 0x00400000]> ∅;
         instructions := [];
         address := 0x00400000 |}
  ∧ ∃ pre line post later,
      ["ADDI $8, $0, 5"; "LOOP:"; "ADDI $8, $8, -1"] = pre ++ line :: post
      ∧ defined_label line = Some "LOOP"
      ∧ 0x00400004
        = base_address + 4 * Z.of_nat (List.length (parse_source_code pre).2)
      ∧ (parse_source_code ["ADDI $8, $0, 5"; "LOOP:"; "ADDI $8, $8, -1"]).2
        = (parse_source_code pre).2 ++ later
      ∧ match later with
        | (a', _) :: _ => a' = 0x00400004
        | [] => 0x00400004
                = base_address
                  + 4 * Z.of_nat
                          (List.length
                             (parse_source_code
                                ["ADDI $8, $0, 5"; "LOOP:"; "ADDI $8, $8, -1"]).2)
        end.
Proof.
  destruct label_address_is_next_instruction as (Hshape & Hline & Htable).
  split_and!.
  - apply (Hshape scan_init "LOOP" "  # top of the loop"); reflexivity.
  - apply (Hline scan_init "END :" "END"); reflexivity.
  - apply (Htable ["ADDI $8, $0, 5"; "LOOP:"; "ADDI $8, $8, -1"]
             "LOOP" 0x00400004).
    reflexivity.
Defined.

(** C10. A line with nothing but white space before its first colon binds
    the empty string as a label to the current address; the scan goes on
    without an error. *)
Theorem empty_label_is_bound (st : scan_state) (ws rest : string) :
  all_space ws = true →
  defined_label (ws +:+ ":" +:+ rest) = Some ""
  ∧ labels (scan_line st (ws +:+ ":" +:+ rest))
    = <["" := address st]> (labels st)
  ∧ ∀ pre : list string,
      (parse_source_code (pre ++ [ws +:+ ":" +:+ rest])).1 !! ""
      = Some (base_address
              + 4 * Z.of_nat (List.length (parse_source_code pre).2)).
Proof.
  intros Hws. pose proof (blank_label_line ws rest Hws) as Hdef.
  split_and!; [done | by rewrite scan_line_view, Hdef |].
  intros pre. unfold parse_source_code. cbn [fst snd].
  rewrite scan_app, scan_cons. unfold scan at 1. cbn [fold_left].
  rewrite scan_line_view, Hdef. cbn [labels].
  rewrite lookup_insert_eq.
  by destruct (addressed_scan pre scan_init addressed_init) as [-> _].
Qed.

Lemma empty_label_is_bound_witness :
  labels (scan_line scan_init "  : ADD $1, $2, $3")
  = <["" := 0x00400000]> ∅.
Proof.
  change "  : ADD $1, $2, $3" with ("  " +:+ ":" +:+ " ADD $1, $2, $3").
  apply (empty_label_is_bound scan_init "  " " ADD $1, $2, $3").
  reflexivity.
Defined.

(** C9. On a line with two colons the scan pass keeps, as instruction
    text, only what stands between the first and the second colon; the
    text from the second colon on is lost. *)
Theorem second_colon_cuts_instruction :
  parse_source_code ["A: B: ADD $1, $2, $3"]
  = ({["A" := 0x00400000]}, [(0x00400000, "B")]).
Proof. reflexivity. Qed.

(** ** A label beyond the reach of a jump *)

Section FarLabel.

(** A program of [n] jumps followed by the label they aim at. *)
Lemma scan_replicate (n : nat) (line text : string) (st : scan_state) :
  defined_label line = None → emitted_text line = Some text →
  labels (scan (replicate n line) st) = labels st
  ∧ address (scan (replicate n line) st) = address st + 4 * Z.of_nat n.
Proof.
  intros Hdef Hemit. revert st.
  induction n as [|n IH]; intros st.
  - split; [done|]. cbn [replicate scan fold_left]. lia.
  - change (replicate (S n) line) with (line :: replicate n line).
    rewrite scan_cons. destruct (IH (scan_line st line)) as [-> ->].
    rewrite scan_line_view, Hdef, Hemit. cbn [labels address]. split; [done|]. lia.
Qed.

Lemma far_label (n : nat) :
  (parse_source_code (replicate n "J FAR" ++ ["FAR: J FAR"])).1
  = {["FAR" := base_address + 4 * Z.of_nat n]}.
Proof.
  unfold parse_source_code. cbn [fst].
  rewrite scan_app, scan_cons. unfold scan at 1. cbn [fold_left].
  destruct (scan_replicate n "J FAR" "J FAR" scan_init) as [Hl Ha];
    [reflexivity..|].
  rewrite scan_line_view.
  change (defined_label "FAR: J FAR") with (Some "FAR").
  cbn [labels]. rewrite Hl, Ha. reflexivity.
Qed.

(** With 66060288 instructions in front of it, a label gets the address
    0x10000000, whose jump field needs 27 digits. *)
Lemma far_label_reached :
  (parse_source_code
     (replicate (N.to_nat 66060288) "J FAR" ++ ["FAR: J FAR"])).1
  = {["FAR" := 0x10000000]}.
Proof.
  rewrite far_label, N_nat_Z. reflexivity.
Qed.

End FarLabel.

(** ** The encoder *)

Section Encoder.

Lemma bind_ok {A B} (a : A) (k : A → result B) : (Ok a ≫= k) = k a.
Proof. done. Qed.

Lemma bind_raise {A B} (e : exn) (k : A → result B) : (Raise e ≫= k) = Raise e.
Proof. done. Qed.

Lemma getitem_0 (x : string) (l : list string) : getitem (x :: l) 0 = Ok x.
Proof. done. Qed.

Lemma getitem_S (x : string) (l : list string) (k : nat) :
  getitem (x :: l) (S k) = getitem l k.
Proof. done. Qed.

Lemma in_dict_true {V} (k : string) (d : gmap string V) (v : V) :
  d !! k = Some v → in_dict k d = true.
Proof. intros H. apply bool_decide_eq_true_2. by exists v. Qed.

Lemma in_dict_false {V} (k : string) (d : gmap string V) :
  d !! k = None → in_dict k d = false.
Proof. intros H. apply bool_decide_eq_false_2. rewrite H. by intros [? ?]. Qed.

Lemma getkey_ok {V} (k : string) (d : gmap string V) (v : V) :
  d !! k = Some v → getkey d k = Ok v.
Proof. unfold getkey. by intros ->. Qed.

Lemma int_ok (s : string) (n : Z) : int_opt s = Some n → int s = Ok n.
Proof. unfold int. by intros ->. Qed.

(** Every code of the tables is a field of six binary digits. *)
Lemma instruction_set_codes (f : format) (k v : string) :
  instruction_set f !! k = Some v → field 6 (bin_value v) v.
Proof.
  intros H. destruct f; apply elem_of_list_to_map_2 in H.
  all: repeat (apply elem_of_cons in H as [[= -> ->]|H]; [done|]).
  all: by apply elem_of_nil in H.
Qed.

(** Fields put side by side make a field. *)
Lemma field_app (a b : nat) (x y : Z) (s t : string) :
  field a x s → field b y t →
  field (a + b) (x * 2 ^ Z.of_nat b + y) (s +:+ t).
Proof.
  intros (Ha & Hs & Hx) (Hb & Ht & Hy). unfold field.
  rewrite str_length_app, is_bits_app, bin_value_app, Ha, Hb, Hs, Ht, Hx, Hy.
  done.
Qed.

(** A register token whose number fits in five bits becomes the five
    binary digits of that number. *)
Lemma reg_to_bin_register (tok : string) (n : Z) :
  register tok n → reg_to_bin tok = Ok (format_b 5 n) ∧ field 5 n (format_b 5 n).
Proof.
  intros [Hint Hn]. unfold reg_to_bin. rewrite (int_ok _ _ Hint), bind_ok.
  split; [done|]. apply format_b_field; [lia|]. simpl. lia.
Qed.

(** Text that does not read as an integer makes the encoder of a register
    fail. *)
Lemma reg_to_bin_malformed (tok : string) :
  int_opt (tail tok) = None → reg_to_bin tok = Raise ValueError.
Proof. unfold reg_to_bin, int. by intros ->. Qed.

Lemma substring_prefix (a b : string) :
  substring 0 (String.length a) (a +:+ b) = a.
Proof.
  induction a as [|c a IH]; simpl; [by destruct b|]. by rewrite IH.
Qed.

Lemma substring_suffix (a b : string) :
  substring (String.length a) (String.length b) (a +:+ b) = b.
Proof.
  induction a as [|c a IH]; simpl; [|done].
  induction b as [|c b IH]; simpl; [done | by rewrite IH].
Qed.

End Encoder.

(** ** The claims on the encoder *)

(** X27. The result of encoding an R-type instruction always begins with
    000000 and ends with the table's function code for the mnemonic. With
    operands [rd, rs, rt] whose register numbers fit in five bits, and the
    shift amount read from a fourth operand for SLL and SRL and zero
    otherwise, fitting in five bits as well, the result is the 32 binary
    digits 000000, rs, rt, rd, shamt, funct. *)
Theorem r_type_layout
    (text : string) (labels : gmap string Z) (current_address : Z)
    (op funct : string) (operands : list string) :
  re_split text = op :: operands →
  instruction_set R !! upper op = Some funct →
  (∀ word,
     instruction_to_machine_code text labels current_address = Ok (Some word) →
     ∃ fields, word = "000000" +:+ fields +:+ funct)
  ∧ (∀ (rd rs rt : string) (more : list string) (nd ns nt sh : Z),
       operands = rd :: rs :: rt :: more →
       register rd nd → register rs ns → register rt nt →
       (if in_list (upper op) ["SLL"; "SRL"]
        then more !! 0%nat ≫= int_opt else Some 0) = Some sh →
       0 ≤ sh ≤ 31 →
       ∃ frs frt frd fsh word,
         field 5 ns frs ∧ field 5 nt frt ∧ field 5 nd frd ∧ field 5 sh fsh
         ∧ word = "000000" +:+ frs +:+ frt +:+ frd +:+ fsh +:+ funct
         ∧ instruction_to_machine_code text labels current_address
           = Ok (Some word)
         ∧ field 32 (ns * 2 ^ 21 + nt * 2 ^ 16 + nd * 2 ^ 11 + sh * 2 ^ 6
                     + bin_value funct) word
         ∧ substring 0 6 word = "000000"
         ∧ substring 26 6 word = funct).
Proof.
  intros Htok Hfunct.
  assert (instruction_to_machine_code text labels current_address
          = (rd ← getitem operands 0 ≫= reg_to_bin;
             rs ← getitem operands 1 ≫= reg_to_bin;
             rt ← getitem operands 2 ≫= reg_to_bin;
             shamt ← (if in_list (upper op) ["SLL"; "SRL"]
                      then n ← getitem operands 3 ≫= int; Ok (format_b 5 n)
                      else Ok "00000");
             Ok (Some ("000000" +:+ rs +:+ rt +:+ rd +:+ shamt +:+ funct))))
    as Hcode.
  { unfold instruction_to_machine_code. rewrite Htok.
    change (item (op :: operands) 0) with op.
    change (drop 1 (op :: operands)) with operands.
    rewrite (in_dict_true _ _ _ Hfunct).
    by rewrite (getkey_ok _ _ _ Hfunct). }
  rewrite Hcode. clear Hcode. split.
  - destruct (getitem operands 0 ≫= reg_to_bin) as [rd|e]; [|done].
    destruct (getitem operands 1 ≫= reg_to_bin) as [rs|e]; [|done].
    destruct (getitem operands 2 ≫= reg_to_bin) as [rt|e]; [|done].
    rewrite !bind_ok.
    destruct (if in_list (upper op) ["SLL"; "SRL"] then _ else _)
      as [shamt|e]; [|done].
    rewrite bind_ok. intros word [= <-].
    exists (rs +:+ rt +:+ rd +:+ shamt). by rewrite !str_app_assoc.
  - intros rd rs rt more nd ns nt sh -> Hrd Hrs Hrt Hsh Hsh_range.
    destruct (reg_to_bin_register _ _ Hrd) as [Erd Frd].
    destruct (reg_to_bin_register _ _ Hrs) as [Ers Frs].
    destruct (reg_to_bin_register _ _ Hrt) as [Ert Frt].
    pose proof (instruction_set_codes _ _ _ Hfunct) as Ffunct.
    assert (field 5 sh (format_b 5 sh)) as Fsh
      by (apply format_b_field; [lia | simpl; lia]).
    exists (format_b 5 ns), (format_b 5 nt), (format_b 5 nd), (format_b 5 sh).
    eexists. split_and!; [done..|reflexivity| | | |].
    + rewrite !getitem_S, !getitem_0, !bind_ok, Erd, Ers, Ert, !bind_ok.
      destruct (in_list (upper op) ["SLL"; "SRL"]).
      * destruct more as [|tok more]; [done|].
        simpl in Hsh. rewrite getitem_0, bind_ok, (int_ok _ _ Hsh). done.
      * injection Hsh as <-. done.
    + assert (field 6 0 "000000") as Fop by done.
      pose proof (field_app _ _ _ _ _ _ Fop
                    (field_app _ _ _ _ _ _ Frs
                       (field_app _ _ _ _ _ _ Frt
                          (field_app _ _ _ _ _ _ Frd
                             (field_app _ _ _ _ _ _ Fsh Ffunct))))) as F.
      destruct F as (Hlen & Hbits & Hval). split_and!; [done..|].
      rewrite Hval. simpl Z.of_nat. lia.
    + apply (substring_prefix "000000").
    + destruct Frs as [Lrs _], Frt as [Lrt _], Frd as [Lrd _], Fsh as [Lsh _].
      destruct Ffunct as [Lf _].
      rewrite <- !str_app_assoc.
      set (pre := ((("000000" +:+ _) +:+ _) +:+ _) +:+ _).
      assert (String.length pre = 26%nat) as Hpre
        by (unfold pre; rewrite !str_length_app, Lrs, Lrt, Lrd, Lsh; done).
      pose proof (substring_suffix pre funct) as Hsuffix.
      by rewrite Hpre, Lf in Hsuffix.
Qed.

Lemma r_type_layout_witness :
  ∃ frs frt frd fsh word,
    field 5 9 frs ∧ field 5 10 frt ∧ field 5 8 frd ∧ field 5 3 fsh
    ∧ word = "000000" +:+ frs +:+ frt +:+ frd +:+ fsh +:+ "000010"
    ∧ instruction_to_machine_code "srl $8, $9, $10, 3" ∅ 0x00400000
      = Ok (Some word)
    ∧ field 32 (9 * 2 ^ 21 + 10 * 2 ^ 16 + 8 * 2 ^ 11 + 3 * 2 ^ 6
                + bin_value "000010") word
    ∧ substring 0 6 word = "000000"
    ∧ substring 26 6 word = "000010".
Proof.
  destruct (r_type_layout "srl $8, $9, $10, 3" ∅ 0x00400000
              "srl" "000010" ["$8"; "$9"; "$10"; "3"]) as [_ Hlayout].
  - reflexivity.
  - reflexivity.
  - apply (Hlayout "$8" "$9" "$10" ["3"] 8 9 10 3).
    + reflexivity.
    + split; [reflexivity | lia].
    + split; [reflexivity | lia].
    + split; [reflexivity | lia].
    + reflexivity.
    + lia.
Defined.

(** C4. SLL with valid registers and the shift amount 32: the shift amount
    is written by [format_b 5] without a check or a mask, so it takes six
    digits and the result has 33 characters instead of 32; a negative
    shift amount puts a minus sign into the word. *)
Theorem shift_amount_not_checked :
  register "$1" 1 ∧ register "$2" 2 ∧ register "$3" 3
  ∧ instruction_to_machine_code "SLL $1, $2, $3, 32" ∅ 0x00400000
    = Ok (Some ("000000" +:+ "00010" +:+ "00011" +:+ "00001"
                +:+ "100000" +:+ "000000"))
  ∧ String.length ("000000" +:+ "00010" +:+ "00011" +:+ "00001"
                   +:+ "100000" +:+ "000000") = 33%nat
  ∧ instruction_to_machine_code "SRL $1, $2, $3, -1" ∅ 0x00400000
    = Ok (Some ("000000" +:+ "00010" +:+ "00011" +:+ "00001"
                +:+ "-0001" +:+ "000010")).
Proof. unfold register. split_and!; (reflexivity || lia). Qed.

(** C1. A BEQ or BNE instruction whose third operand is a label of the
    table encodes with a last field of 16 binary digits that stands for
    [(target - current_address - 4) >> 2] masked to 16 bits. When the
    label table and the instruction record come from the scan pass and the
    word offset fits in a signed 16-bit number, reading the field as a
    signed number, multiplying by four and adding [current_address + 4]
    gives the label's address back. *)
Theorem branch_offset_round_trip
    (text : string) (labels : gmap string Z) (current_address : Z)
    (op rt rs lbl frt frs : string) (more : list string) (target : Z) :
  re_split text = op :: rt :: rs :: lbl :: more →
  upper op = "BEQ" ∨ upper op = "BNE" →
  reg_to_bin rt = Ok frt → reg_to_bin rs = Ok frs →
  labels !! lbl = Some target →
  ∃ opc offset_field,
    instruction_set I !! upper op = Some opc
    ∧ instruction_to_machine_code text labels current_address
      = Ok (Some (opc +:+ frs +:+ frt +:+ offset_field))
    ∧ field 16 (Z.land (Z.shiftr (target - current_address - 4) 2) 0xFFFF)
        offset_field
    ∧ ∀ lines : list string,
        labels = (parse_source_code lines).1 →
        (current_address, text) ∈ (parse_source_code lines).2 →
        - 2 ^ 15 ≤ Z.shiftr (target - current_address - 4) 2 < 2 ^ 15 →
        signed16 (bin_value offset_field) * 4 + (current_address + 4)
        = target.
Proof.
  intros Htok Hop Hrt Hrs Hlbl.
  set (offset := Z.shiftr (target - current_address - 4) 2).
  assert (Z.land offset 0xFFFF = offset `mod` 2 ^ 16) as Hmask
    by apply (Z.land_ones offset 16 ltac:(lia)).
  assert (0 ≤ Z.land offset 0xFFFF < 2 ^ 16) as Hrange
    by (rewrite Hmask; apply Z.mod_pos_bound; lia).
  assert (field 16 (Z.land offset 0xFFFF) (format_b 16 (Z.land offset 0xFFFF)))
    as Hfield by (apply format_b_field; [lia | exact Hrange]).
  assert (∃ opc, instruction_set I !! upper op = Some opc
                 ∧ in_dict (upper op) (instruction_set R) = false
                 ∧ in_list (upper op) ["LW"; "SW"] = false
                 ∧ in_list (upper op) ["BEQ"; "BNE"] = true)
    as (opc & Hopc & HnotR & HnotLW & Hbranch)
    by (destruct Hop as [-> | ->]; eexists; split_and!; reflexivity).
  exists opc, (format_b 16 (Z.land offset 0xFFFF)).
  split_and!; [done | | done |].
  - unfold instruction_to_machine_code. rewrite Htok.
    change (item (op :: rt :: rs :: lbl :: more) 0) with op.
    change (drop 1 (op :: rt :: rs :: lbl :: more)) with (rt :: rs :: lbl :: more).
    rewrite HnotR, (in_dict_true _ _ _ Hopc), HnotLW, Hbranch.
    rewrite !getitem_S, !getitem_0, !bind_ok, Hrt, Hrs, !bind_ok.
    by rewrite (getkey_ok _ _ _ Hlbl), bind_ok, (getkey_ok _ _ _ Hopc), bind_ok.
  - intros lines -> Hrecord Hfits.
    destruct Hfield as (_ & _ & ->).
    apply parse_labels_aligned in Hlbl as [k ->].
    apply parse_instructions_aligned in Hrecord as [j Hj].
    assert (offset = Z.of_nat k - Z.of_nat j - 1) as Hoffset.
    { unfold offset. rewrite Hj, Z.shiftr_div_pow2 by lia.
      replace (base_address + 4 * Z.of_nat k - (base_address + 4 * Z.of_nat j) - 4)
        with ((Z.of_nat k - Z.of_nat j - 1) * 2 ^ 2) by lia.
      apply Z.div_mul. lia. }
    fold offset in Hfits. rewrite Hmask. unfold signed16.
    destruct (Z.ltb_spec (offset `mod` 2 ^ 16) (2 ^ 15)) as [Hlt|Hge].
    + destruct (Z.le_gt_cases 0 offset) as [Hpos|Hneg].
      * rewrite Z.mod_small by lia. lia.
      * replace offset with (offset + 2 ^ 16 - 1 * 2 ^ 16) in Hlt by lia.
        rewrite Zminus_mod, Z_mod_mult, Z.sub_0_r, Z.mod_mod in Hlt by lia.
        rewrite Z.mod_small in Hlt by lia. lia.
    + destruct (Z.le_gt_cases 0 offset) as [Hpos|Hneg].
      * rewrite Z.mod_small in Hge by lia. lia.
      * replace (offset `mod` 2 ^ 16) with (offset + 2 ^ 16); [lia|].
        symmetry. rewrite <- (Z_mod_plus_full offset 1 (2 ^ 16)).
        apply Z.mod_small. lia.
Qed.

Lemma branch_offset_round_trip_witness :
  let lines := ["ADDI $8, $0, 5"; "ADDI $9, $0, 0"; "LOOP: ADDI $9, $9, 1";
                "ADD $10, $9, $9"; "BEQ $8, $9, LOOP"] in
  ∃ opc offset_field,
    instruction_set I !! "BEQ" = Some opc
    ∧ instruction_to_machine_code "BEQ $8, $9, LOOP"
        (parse_source_code lines).1 0x00400010
      = Ok (Some (opc +:+ "01001" +:+ "01000" +:+ offset_field))
    ∧ field 16 0xFFFD offset_field
    ∧ signed16 (bin_value offset_field) * 4 + (0x00400010 + 4) = 0x00400008.
Proof.
  intros lines.
  destruct (branch_offset_round_trip "BEQ $8, $9, LOOP"
              (parse_source_code lines).1 0x00400010
              "BEQ" "$8" "$9" "LOOP" "01000" "01001" [] 0x00400008)
    as (opc & offset_field & Hopc & Hcode & Hfield & Hback).
  - reflexivity.
  - left. reflexivity.
  - reflexivity.
  - reflexivity.
  - reflexivity.
  - exists opc, offset_field. split_and!; [exact Hopc | exact Hcode | exact Hfield |].
    apply (Hback lines).
    + reflexivity.
    + apply (list_elem_of_lookup_2 _ 4%nat). reflexivity.
    + vm_compute. split; [discriminate | reflexivity].
Defined.

(** C3. An instruction whose mnemonic is in none of the three tables makes
    the encoder return [None] without raising anything, and the run of the
    assembler goes on to write that [None] out as the record's word. *)
Theorem unknown_mnemonic_returns_none :
  instruction_to_machine_code "XYZ $t0,$t1,$t2" ∅ 0x00400000 = Ok None
  ∧ assemble ["XYZ $t0,$t1,$t2"; "ADD $1, $2, $3"]
    = Ok [(0x00400000, None);
          (0x00400004, Some "00000000010000110000100000100000")].
Proof. split; reflexivity. Qed.

(** The same for every instruction: with a first token outside the tables
    the encoder raises nothing and returns no encoding. *)
Lemma unknown_mnemonic_none
    (text : string) (labels : gmap string Z) (current_address : Z) :
  (∀ f, instruction_set f !! upper (item (re_split text) 0) = None) →
  instruction_to_machine_code text labels current_address = Ok None.
Proof.
  intros Hno. unfold instruction_to_machine_code.
  by rewrite !in_dict_false by apply Hno.
Qed.

(** C5. LW with the offset -4: the last 16 characters of the result are a
    minus sign followed by 15 digits, not the two's-complement pattern
    1111111111111100. *)
Theorem lw_negative_offset_not_masked :
  instruction_to_machine_code "LW $8, $9, -4" ∅ 0x00400000
  = Ok (Some ("100011" +:+ "01001" +:+ "01000" +:+ "-000000000000100"))
  ∧ field 16 (Z.land (-4) 0xFFFF) "1111111111111100"
  ∧ instruction_to_machine_code "SW $8, $9, 65536" ∅ 0x00400000
    = Ok (Some ("101011" +:+ "01001" +:+ "01000" +:+ "10000000000000000")).
Proof. unfold field. split_and!; reflexivity. Qed.

(** What LW and SW do with their offset in general: it is written by
    [format_b 16] as it is, without a mask. *)
Lemma lw_sw_offset_unmasked
    (text : string) (labels : gmap string Z) (current_address : Z)
    (op rt rs imm frt frs : string) (more : list string) (offset : Z) :
  re_split text = op :: rt :: rs :: imm :: more →
  upper op = "LW" ∨ upper op = "SW" →
  reg_to_bin rt = Ok frt → reg_to_bin rs = Ok frs →
  int_opt imm = Some offset →
  ∃ opc,
    instruction_set I !! upper op = Some opc
    ∧ instruction_to_machine_code text labels current_address
      = Ok (Some (opc +:+ frs +:+ frt +:+ format_b 16 offset))
    ∧ (0 ≤ offset < 2 ^ 16 → field 16 offset (format_b 16 offset))
    ∧ (offset < 0 → is_bits (format_b 16 offset) = false)
    ∧ (2 ^ 16 ≤ offset → (16 < String.length (format_b 16 offset))%nat).
Proof.
  intros Htok Hop Hrt Hrs Himm.
  assert (∃ opc, instruction_set I !! upper op = Some opc
                 ∧ in_dict (upper op) (instruction_set R) = false
                 ∧ in_list (upper op) ["LW"; "SW"] = true)
    as (opc & Hopc & HnotR & Hlw)
    by (destruct Hop as [-> | ->]; eexists; split_and!; reflexivity).
  exists opc. split_and!; [done | | | |].
  - unfold instruction_to_machine_code. rewrite Htok.
    change (item (op :: rt :: rs :: imm :: more) 0) with op.
    change (drop 1 (op :: rt :: rs :: imm :: more)) with (rt :: rs :: imm :: more).
    rewrite HnotR, (in_dict_true _ _ _ Hopc), Hlw.
    rewrite !getitem_S, !getitem_0, !bind_ok, Hrt, Hrs, !bind_ok.
    by rewrite (int_ok _ _ Himm), bind_ok, (getkey_ok _ _ _ Hopc), bind_ok.
  - intros H. by apply format_b_field; [lia|].
  - apply format_b_negative.
  - apply (format_b_overflow 16).
Qed.

(** C6, as the code has it. The encoder of a register drops the first
    character of the token unchecked and fails with [ValueError] when the
    rest does not read as an integer; when the rest reads as an integer
    from 0 to 31, the result is the five binary digits of that integer. *)
Theorem reg_to_bin_reads_after_first_character (tok : string) :
  (int_opt (tail tok) = None → reg_to_bin tok = Raise ValueError)
  ∧ ∀ n, int_opt (tail tok) = Some n → 0 ≤ n ≤ 31 →
      ∃ digits, reg_to_bin tok = Ok digits ∧ field 5 n digits.
Proof.
  split; [apply reg_to_bin_malformed|].
  intros n Hint Hn. exists (format_b 5 n).
  by apply reg_to_bin_register.
Qed.

Lemma reg_to_bin_reads_after_first_character_witness :
  (int_opt "t0" = None ∧ reg_to_bin "$t0" = Raise ValueError)
  ∧ (int_opt "9" = Some 9 ∧ ∃ digits, reg_to_bin "$9" = Ok digits ∧ field 5 9 digits).
Proof.
  split.
  - split; [reflexivity|].
    apply (reg_to_bin_reads_after_first_character "$t0"). reflexivity.
  - split; [reflexivity|].
    apply (reg_to_bin_reads_after_first_character "$9"); [reflexivity | lia].
Defined.

(** C6, as the claim has it, fails: a token that does not start with [$]
    and a register number that does not fit in five bits are both encoded
    without a failure, the second as six digits. *)
Lemma reg_to_bin_checks_nothing :
  reg_to_bin "x5" = Ok "00101" ∧ reg_to_bin "$32" = Ok "100000".
Proof. split; reflexivity. Qed.

(** C7. J to a label at address 0x10000000: the address field has 27
    digits, the word 33; nothing is cut down to 26 bits. *)
Theorem jump_target_not_truncated :
  instruction_to_machine_code "J FAR" {["FAR" := 0x10000000]} 0x00400000
  = Ok (Some ("000010" +:+ "100000000000000000000000000"))
  ∧ String.length "100000000000000000000000000" = 27%nat
  ∧ field 26 (Z.shiftr 0x10000000 2 `mod` 2 ^ 26) "00000000000000000000000000".
Proof. unfold field. split_and!; reflexivity. Qed.

(** What J does when the address is in range: for a label address below
    2^28 the field has 26 digits that stand for the address shifted right
    by two, and shifting back gives the address when it is a multiple of
    four, as every address bound by the scan pass is. *)
Lemma jump_target_in_range
    (text : string) (labels : gmap string Z) (current_address : Z)
    (op lbl : string) (more : list string) (target : Z) :
  re_split text = op :: lbl :: more →
  upper op = "J" →
  labels !! lbl = Some target →
  0 ≤ target < 2 ^ 28 →
  ∃ target_field,
    instruction_to_machine_code text labels current_address
    = Ok (Some ("000010" +:+ target_field))
    ∧ field 26 (Z.shiftr target 2) target_field
    ∧ (target `mod` 4 = 0 → Z.shiftl (bin_value target_field) 2 = target).
Proof.
  intros Htok Hop Hlbl Hrange.
  assert (0 ≤ Z.shiftr target 2 < 2 ^ 26) as Hshift.
  { rewrite Z.shiftr_div_pow2 by lia. split.
    - apply Z.div_pos; lia.
    - apply Z.div_lt_upper_bound; lia. }
  pose proof (format_b_field 26 (Z.shiftr target 2) ltac:(lia) Hshift) as Hfield.
  exists (format_b 26 (Z.shiftr target 2)). split_and!; [|done|].
  - unfold instruction_to_machine_code. rewrite Htok.
    change (item (op :: lbl :: more) 0) with op.
    change (drop 1 (op :: lbl :: more)) with (lbl :: more).
    rewrite Hop.
    change (in_dict "J" (instruction_set R)) with false.
    change (in_dict "J" (instruction_set I)) with false.
    change (in_dict "J" (instruction_set J)) with true.
    rewrite getitem_0, bind_ok, (getkey_ok _ _ _ Hlbl), bind_ok.
    done.
  - intros Haligned. destruct Hfield as (_ & _ & ->).
    rewrite Z.shiftl_mul_pow2, Z.shiftr_div_pow2 by lia.
    change (2 ^ 2) with 4.
    pose proof (Z.div_mod target 4 ltac:(lia)). lia.
Qed.

(** ** A program from end to end *)

Example assemble_loop :
  assemble ["# count up to five"; "ADDI $8, $0, 5"; "";
            "ADDI $9, $0, 0   # counter"; "LOOP:"; "ADDI $9, $9, 1";
            "BNE $8, $9, LOOP"; "END: J END"]
  = Ok [(0x00400000, Some "00100000000010000000000000000101");
        (0x00400004, Some "00100000000010010000000000000000");
        (0x00400008, Some "00100001001010010000000000000001");
        (0x0040000C, Some "00010101001010001111111111111110");
        (0x00400010, Some "00001000000100000000000000000100")].
Proof. reflexivity. Qed.

(** A register written by name is not understood: the text after [$] has
    to be a number. *)
Example assemble_named_register :
  assemble ["ADD $t0, $t1, $t2"] = Raise ValueError.
Proof. reflexivity. Qed.

Example assemble_undefined_label :
  assemble ["BEQ $1, $2, NOWHERE"] = Raise KeyError.
Proof. reflexivity. Qed.

(** ** More on the scan pass *)

Section ScanMore.

Lemma strip_all_space (s : string) : all_space s = true → strip s = "".
Proof. intros H. unfold strip. by rewrite lstrip_all_space. Qed.

(** The records after a scan that starts anywhere: those of the start,
    then one for every line that emits text. *)
Lemma scan_texts (lines : list string) (st : scan_state) :
  (instructions (scan lines st)).*2
  = (instructions st).*2 ++ omap emitted_text lines.
Proof.
  revert st. induction lines as [|line lines IH]; intros st.
  - simpl. by rewrite app_nil_r.
  - rewrite scan_cons, IH, scan_line_view. cbn [instructions omap list_omap].
    destruct (emitted_text line) as [text|]; [|done].
    by rewrite fmap_app, <- app_assoc.
Qed.

Lemma scan_nil (st : scan_state) : scan [] st = st.
Proof. done. Qed.

Lemma scan_snoc (lines : list string) (line : string) (st : scan_state) :
  scan (lines ++ [line]) st = scan_line (scan lines st) line.
Proof. by rewrite scan_app, scan_cons, scan_nil. Qed.

(** A scan that starts in any state does what the scan from the initial
    state does, moved by the distance of the address counter from the
    base. *)
Lemma scan_relocate (lines : list string) (st : scan_state) :
  let d := address st - base_address in
  let s0 := scan lines scan_init in
  labels (scan lines st) = ((λ a, a + d) <$> labels s0) ∪ labels st
  ∧ instructions (scan lines st)
    = instructions st ++ ((λ r : Z * string, (r.1 + d, r.2)) <$> instructions s0)
  ∧ address (scan lines st) = address s0 + d.
Proof.
  intros d. induction lines as [|line lines IH] using rev_ind.
  - cbn. rewrite fmap_empty, (left_id_L ∅ (∪)), app_nil_r.
    split_and!; [done..|]. unfold d. lia.
  - cbn zeta in *. destruct IH as (IHl & IHi & IHa).
    rewrite !scan_snoc, !scan_line_view. cbn [labels instructions address].
    rewrite IHl, IHi, IHa. split_and!.
    + destruct (defined_label line) as [lbl|]; [|done].
      by rewrite fmap_insert, insert_union_l.
    + destruct (emitted_text line) as [text|]; [|done].
      by rewrite fmap_app, app_assoc.
    + destruct (emitted_text line); lia.
Qed.

Lemma contains_rstrip (sep : ascii) (s : string) :
  contains sep s = false → contains sep (rstrip s) = false.
Proof.
  induction s as [|c s IH]; simpl; [done|].
  destruct (Ascii.eqb c sep) eqn:Hc; [done|]. simpl. intros Hs.
  specialize (IH Hs). destruct (rstrip s).
  - destruct (isspace c); simpl; by rewrite ?Hc.
  - cbn [contains]. by rewrite Hc.
Qed.

Lemma contains_strip (sep : ascii) (s : string) :
  contains sep s = false → contains sep (strip s) = false.
Proof. intros H. by apply contains_rstrip, contains_lstrip. Qed.

Lemma rstrip_step (c : ascii) (s : string) :
  rstrip (String c s)
  = match rstrip s with
    | EmptyString => if isspace c then EmptyString else String c EmptyString
    | r => String c r
    end.
Proof. done. Qed.

Lemma rstrip_idemp (s : string) : rstrip (rstrip s) = rstrip s.
Proof.
  induction s as [|c s IH]; [done|].
  rewrite rstrip_step. destruct (rstrip s) as [|c' r] eqn:Hr.
  - destruct (isspace c) eqn:Hc; [done|]. simpl. by rewrite Hc.
  - by rewrite rstrip_step, IH.
Qed.

Lemma strip_idemp (s : string) : strip (strip s) = strip s.
Proof.
  unfold strip.
  assert (lstrip s = "" ∨ ∃ c r, lstrip s = String c r ∧ isspace c = false)
    as [->|(c & r & -> & Hc)].
  { induction s as [|c s IH]; simpl; [by left|].
    destruct (isspace c) eqn:Hc; [done|]. right. by exists c, s. }
  - done.
  - rewrite (rstrip_cons c r Hc). cbn [lstrip]. rewrite Hc.
    by rewrite (rstrip_cons _ _ Hc), rstrip_idemp.
Qed.

(** The pieces of a split hold no separator, and none of the characters
    the text did not have. *)
Lemma split_from_pieces (sep c : ascii) (tok s : string) :
  contains c tok = false →
  c = sep ∨ contains c s = false →
  Forall (λ t, contains c t = false) (split_from sep tok s).
Proof.
  revert tok. induction s as [|x s IH]; intros tok Htok Hs; simpl.
  - by constructor.
  - destruct (Ascii.eqb_spec x sep) as [->|Hx].
    + constructor; [done|]. apply IH; [done|].
      destruct Hs as [|Hs]; [by left|]. right.
      simpl in Hs. by apply orb_false_elim in Hs as [_ ?].
    + apply IH.
      * rewrite contains_app, Htok. simpl.
        destruct Hs as [->|Hs].
        -- destruct (Ascii.eqb_spec x sep); [done|]. done.
        -- simpl in Hs. apply orb_false_elim in Hs as [-> _]. done.
      * destruct Hs as [|Hs]; [by left|]. right.
        simpl in Hs. by apply orb_false_elim in Hs as [_ ?].
Qed.

Lemma split_item_pieces (sep c : ascii) (s : string) (k : nat) :
  c = sep ∨ contains c s = false →
  contains c (item (split sep s) k) = false.
Proof.
  intros Hs. unfold item, split.
  pose proof (split_from_pieces sep c "" s eq_refl Hs) as Hall.
  destruct (split_from sep "" s !! k) as [t|] eqn:Hk; [|done].
  simpl. by eapply Forall_lookup_1 in Hall.
Qed.

Lemma uncomment_no_hash (line : string) : contains "#" (uncomment line) = false.
Proof. apply contains_strip, split_item_pieces. by left. Qed.

(** The text a line emits is stripped, not empty, and holds neither a
    [#] nor a colon. *)
Lemma emitted_text_clean (line text : string) :
  emitted_text line = Some text →
  text ≠ "" ∧ strip text = text
  ∧ contains "#" text = false ∧ contains ":" text = false.
Proof.
  unfold emitted_text. pose proof (uncomment_no_hash line) as Hhash.
  destruct (is_empty (uncomment line)); [done|].
  destruct (contains ":" (uncomment line)) eqn:Hcolon.
  - destruct (is_empty (instruction_part (uncomment line))) eqn:He; [done|].
    intros [= <-]. unfold instruction_part in *. split_and!.
    + by intros Heq; rewrite Heq in He.
    + apply strip_idemp.
    + apply contains_strip, split_item_pieces. by right.
    + apply contains_strip, split_item_pieces. by left.
  - destruct (is_empty (uncomment line)) eqn:He; [done|].
    intros [= <-]. split_and!; [|apply strip_idemp|done..].
    by intros Heq; rewrite Heq in He.
Qed.

(** The same for the name a line binds, which may be empty. *)
Lemma defined_label_clean (line lbl : string) :
  defined_label line = Some lbl →
  strip lbl = lbl ∧ contains "#" lbl = false ∧ contains ":" lbl = false.
Proof.
  unfold defined_label. pose proof (uncomment_no_hash line) as Hhash.
  destruct (is_empty (uncomment line)); [done|].
  destruct (contains ":" (uncomment line)); [|done].
  intros [= <-]. unfold label_part. split_and!.
  - apply strip_idemp.
  - apply contains_strip, split_item_pieces. by right.
  - apply contains_strip, split_item_pieces. by left.
Qed.

(** A line with nothing but white space before its comment, if any. *)
Lemma blank_line (line : string) :
  all_space (item (split "#" line) 0) = true →
  defined_label line = None ∧ emitted_text line = None.
Proof.
  intros H. unfold defined_label, emitted_text, uncomment.
  by rewrite (strip_all_space _ H).
Qed.

End ScanMore.

(** ** Further properties of the scan pass *)

(** X1. Blank lines and lines that hold only a comment count for nothing:
    putting one anywhere into the source changes neither the label table
    nor the records. *)
Theorem blank_lines_ignored (pre post : list string) (line : string) :
  all_space (item (split "#" line) 0) = true →
  parse_source_code (pre ++ line :: post) = parse_source_code (pre ++ post).
Proof.
  intros Hblank. destruct (blank_line line Hblank) as [Hdef Hemit].
  unfold parse_source_code. rewrite !scan_app, scan_cons.
  rewrite (scan_line_view _ line), Hdef, Hemit.
  by destruct (scan pre scan_init).
Qed.

Lemma blank_lines_ignored_witness :
  parse_source_code (["ADD $1, $2, $3"] ++ "   # only a comment" :: ["L: J L"])
  = parse_source_code (["ADD $1, $2, $3"] ++ ["L: J L"]).
Proof.
  apply (blank_lines_ignored ["ADD $1, $2, $3"] ["L: J L"] "   # only a comment").
  reflexivity.
Defined.

(** X2. A name is in the label table exactly when some line binds it. *)
Theorem label_table_domain (lines : list string) (lbl : string) :
  is_Some ((parse_source_code lines).1 !! lbl)
  ↔ Exists (λ line, defined_label line = Some lbl) lines.
Proof.
  unfold parse_source_code. cbn [fst].
  induction lines as [|line lines IH] using rev_ind.
  - simpl. rewrite lookup_empty. split; [by intros [? ?] | by intros ?%Exists_nil].
  - rewrite scan_snoc, scan_line_view, Exists_app, Exists_cons, Exists_nil.
    cbn [labels].
    destruct (decide (defined_label line = Some lbl)) as [Hdef|Hno].
    + rewrite Hdef, lookup_insert_eq. split; [by right; left | by eexists].
    + assert (labels (scan lines scan_init) !! lbl
              = match defined_label line with
                | Some lbl' => <[lbl' := address (scan lines scan_init)]>
                                 (labels (scan lines scan_init))
                | None => labels (scan lines scan_init)
                end !! lbl) as <-.
      { destruct (defined_label line) as [lbl'|]; [|done].
        rewrite lookup_insert_ne; [done | congruence]. }
      rewrite IH. tauto.
Qed.

(** X3. The texts of the records are, in order, the texts the lines emit:
    one record for every line with instruction text, none for the
    others. *)
Theorem record_texts (lines : list string) :
  (parse_source_code lines).2.*2 = omap emitted_text lines.
Proof. apply (scan_texts lines scan_init). Qed.

(** X4. The text of a record is never empty, has no white space at either
    end, and holds neither a [#] nor a colon. *)
Theorem record_text_clean (lines : list string) (a : Z) (text : string) :
  (a, text) ∈ (parse_source_code lines).2 →
  text ≠ "" ∧ strip text = text
  ∧ contains "#" text = false ∧ contains ":" text = false.
Proof.
  intros Hin.
  assert (text ∈ (parse_source_code lines).2.*2) as Htext
    by (apply list_elem_of_fmap; by exists (a, text)).
  change ((parse_source_code lines).2)
    with (instructions (scan lines scan_init)) in Htext.
  rewrite (scan_texts lines scan_init) in Htext.
  apply list_elem_of_omap in Htext as (line & _ & Hline).
  by apply (emitted_text_clean line).
Qed.

Lemma record_text_clean_witness :
  "J L" ≠ "" ∧ strip "J L" = "J L"
  ∧ contains "#" "J L" = false ∧ contains ":" "J L" = false.
Proof.
  apply (record_text_clean ["  L :  J L   # forever"] 0x00400000 "J L").
  apply (list_elem_of_lookup_2 _ 0%nat). reflexivity.
Defined.

(** X5. The names in the label table have no white space at either end
    and hold neither a [#] nor a colon. *)
Theorem label_name_clean (lines : list string) (lbl : string) (a : Z) :
  (parse_source_code lines).1 !! lbl = Some a →
  strip lbl = lbl ∧ contains "#" lbl = false ∧ contains ":" lbl = false.
Proof.
  intros Hlbl.
  destruct (last_definition lines lbl a Hlbl) as (_ & line & _ & _ & Hdef & _).
  by apply (defined_label_clean line).
Qed.

Lemma label_name_clean_witness :
  strip "L" = "L" ∧ contains "#" "L" = false ∧ contains ":" "L" = false.
Proof.
  apply (label_name_clean ["  L :  J L   # forever"] "L" 0x00400000).
  reflexivity.
Defined.

(** X6. Scanning two pieces of source one after the other: the records of
    the second piece follow those of the first with their addresses moved
    up by four for every record of the first, and the labels of the second
    piece, moved up likewise, are added to those of the first and replace
    them where a name is bound in both. *)
Theorem parse_append (lines1 lines2 : list string) :
  let d := 4 * Z.of_nat (List.length (parse_source_code lines1).2) in
  (parse_source_code (lines1 ++ lines2)).2
  = (parse_source_code lines1).2
    ++ ((λ r : Z * string, (r.1 + d, r.2)) <$> (parse_source_code lines2).2)
  ∧ (parse_source_code (lines1 ++ lines2)).1
    = ((λ a, a + d) <$> (parse_source_code lines2).1)
      ∪ (parse_source_code lines1).1.
Proof.
  intros d. unfold parse_source_code. cbn [fst snd]. rewrite scan_app.
  destruct (scan_relocate lines2 (scan lines1 scan_init)) as (Hl & Hi & _).
  destruct (addressed_scan lines1 scan_init addressed_init) as [Ha _].
  replace (address (scan lines1 scan_init) - base_address) with d in *
    by (rewrite Ha; unfold d, parse_source_code; cbn [snd]; lia).
  by rewrite Hl, Hi.
Qed.

(** ** More on the tokens of an instruction *)

Section Tokens.

Lemma isspace_is_sep (c : ascii) : isspace c = true → is_sep c = true.
Proof. unfold is_sep. intros ->. by rewrite orb_true_r. Qed.

Lemma has_sep_app (a b : string) : has_sep (a +:+ b) = has_sep a || has_sep b.
Proof.
  induction a as [|c a IH]; simpl; [done|].
  rewrite IH. by destruct (is_sep c).
Qed.

(** The piece read so far comes out in front of the first token. *)
Lemma re_split_from_acc (in_sep : bool) (acc s : string) :
  re_split_from in_sep acc s
  = match re_split_from in_sep "" s with
    | t :: ts => (acc +:+ t) :: ts
    | [] => [acc]
    end.
Proof.
  revert in_sep acc. induction s as [|c s IH]; intros in_sep acc; simpl.
  - by rewrite str_app_empty_r.
  - destruct (in_sep && isspace c); [apply IH|].
    destruct (is_sep c); [by rewrite str_app_empty_r|].
    rewrite IH, (IH _ (String c "")).
    destruct (re_split_from false "" s); [done|].
    by rewrite str_app_assoc.
Qed.

Lemma re_split_from_token (acc tok s : string) :
  has_sep tok = false →
  re_split_from false acc (tok +:+ s) = re_split_from false (acc +:+ tok) s.
Proof.
  revert acc. induction tok as [|c tok IH]; intros acc; simpl.
  - by rewrite str_app_empty_r.
  - destruct (is_sep c) eqn:Hc; [done|]. simpl. intros Htok.
    rewrite IH by done. by rewrite str_app_assoc.
Qed.

Lemma re_split_from_skip (ws s : string) :
  all_space ws = true →
  re_split_from true "" (ws +:+ s) = re_split_from true "" s.
Proof.
  induction ws as [|c ws IH]; simpl; [done|].
  destruct (isspace c); [apply IH | done].
Qed.

Lemma re_split_from_start (s : string) :
  lstrip s = s → re_split_from true "" s = re_split_from false "" s.
Proof.
  destruct s as [|c s]; simpl; [done|].
  destruct (isspace c) eqn:Hc; [|done].
  intros Hs. exfalso.
  assert (String.length (lstrip s) ≤ String.length s)%nat as Hlen.
  { clear. induction s as [|x s IH]; simpl; [lia|].
    destruct (isspace x); simpl; lia. }
  rewrite Hs in Hlen. simpl in Hlen. lia.
Qed.

Lemma re_split_from_clean (in_sep : bool) (acc s : string) :
  has_sep acc = false →
  Forall (λ t, has_sep t = false) (re_split_from in_sep acc s).
Proof.
  revert in_sep acc. induction s as [|c s IH]; intros in_sep acc Hacc; simpl.
  - by constructor.
  - destruct (in_sep && isspace c); [by apply IH|].
    destruct (is_sep c) eqn:Hc.
    + constructor; [done | by apply IH].
    + apply IH. rewrite has_sep_app, Hacc. simpl. by rewrite Hc.
Qed.

Lemma upper_char_idemp (c : ascii) : upper_char (upper_char c) = upper_char c.
Proof. by destruct c as [[] [] [] [] [] [] [] []]. Qed.

Lemma upper_char_is_sep (c : ascii) : is_sep (upper_char c) = is_sep c.
Proof. by destruct c as [[] [] [] [] [] [] [] []]. Qed.

Lemma upper_idemp (s : string) : upper (upper s) = upper s.
Proof.
  induction s as [|c s IH]; simpl; [done|].
  by rewrite upper_char_idemp, IH.
Qed.

Lemma upper_app (a b : string) : upper (a +:+ b) = upper a +:+ upper b.
Proof. induction a as [|c a IH]; simpl; [done | by rewrite IH]. Qed.

Lemma has_sep_upper (s : string) : has_sep (upper s) = has_sep s.
Proof.
  induction s as [|c s IH]; simpl; [done|].
  by rewrite upper_char_is_sep, IH.
Qed.

Lemma item_0 (x : string) (l : list string) : item (x :: l) 0 = x.
Proof. done. Qed.

(** The encoder looks at its text through the upper-cased first token and
    the tokens behind it, and at nothing else. *)
Lemma encoder_by_tokens (text1 text2 : string) (labels : gmap string Z) (a : Z) :
  upper (item (re_split text1) 0) = upper (item (re_split text2) 0) →
  drop 1 (re_split text1) = drop 1 (re_split text2) →
  instruction_to_machine_code text1 labels a
  = instruction_to_machine_code text2 labels a.
Proof.
  intros Hop Hrest. unfold instruction_to_machine_code.
  cbv zeta. by rewrite Hop, Hrest.
Qed.

End Tokens.

(** ** Further properties of the tokens *)

(** X7. No token of an instruction holds a comma or a white-space
    character. *)
Theorem tokens_clean (text : string) :
  Forall (λ t, has_sep t = false) (re_split text).
Proof. by apply re_split_from_clean. Qed.

(** X8. A token, then a comma or a white-space character followed by any
    amount of white space, then the rest: the token is split off and the
    rest is split on its own. So [a,b], [a, b], [a b] and [a,   b] all
    give the same tokens. *)
Theorem re_split_separator (tok ws rest : string) (c : ascii) :
  has_sep tok = false → is_sep c = true → all_space ws = true →
  lstrip rest = rest →
  re_split (tok +:+ String c ws +:+ rest) = tok :: re_split rest.
Proof.
  intros Htok Hc Hws Hrest. unfold re_split.
  rewrite re_split_from_token by done.
  cbn [String.append re_split_from andb]. rewrite Hc.
  by rewrite re_split_from_skip, re_split_from_start.
Qed.

Lemma re_split_separator_witness :
  re_split ("ADD" +:+ String " " "  " +:+ "$1,$2") = "ADD" :: re_split "$1,$2".
Proof. apply (re_split_separator "ADD" "  " "$1,$2" " "); reflexivity. Defined.

(** X9. The mnemonic may be written in any mix of upper and lower case:
    the encoder gives for an instruction what it gives for the same
    instruction with its mnemonic in capitals. Operands are left as they
    are, so label names stay case-sensitive. *)
Theorem mnemonic_case (op rest : string) (labels : gmap string Z) (a : Z) :
  has_sep op = false →
  instruction_to_machine_code (op +:+ rest) labels a
  = instruction_to_machine_code (upper op +:+ rest) labels a.
Proof.
  intros Hop. unfold re_split.
  assert (∀ o, has_sep o = false →
            re_split (o +:+ rest)
            = match re_split rest with
              | t :: ts => (o +:+ t) :: ts
              | [] => [o]
              end) as Hsplit.
  { intros o Ho. unfold re_split.
    rewrite re_split_from_token, re_split_from_acc by done. done. }
  apply encoder_by_tokens.
  - rewrite !Hsplit by (by rewrite ?has_sep_upper).
    destruct (re_split rest) as [|t ts]; rewrite !item_0.
    + by rewrite upper_idemp.
    + by rewrite !upper_app, upper_idemp.
  - rewrite !Hsplit by (by rewrite ?has_sep_upper).
    by destruct (re_split rest).
Qed.

Lemma mnemonic_case_witness :
  instruction_to_machine_code ("bEq" +:+ " $8, $9, LOOP") {["LOOP" := 0x00400008]} 0x00400010
  = instruction_to_machine_code ("BEQ" +:+ " $8, $9, LOOP") {["LOOP" := 0x00400008]} 0x00400010.
Proof.
  apply (mnemonic_case "bEq" " $8, $9, LOOP"). reflexivity.
Defined.

(** ** More on the encoder *)

Section EncoderMore.

(** The tables share no mnemonic. *)
Lemma i_not_r (k v : string) :
  instruction_set I !! k = Some v → instruction_set R !! k = None.
Proof.
  intros H. apply elem_of_list_to_map_2 in H.
  repeat (apply elem_of_cons in H as [[= -> ->]|H]; [done|]).
  by apply elem_of_nil in H.
Qed.

Lemma j_not_r_i (k v : string) :
  instruction_set J !! k = Some v →
  instruction_set R !! k = None ∧ instruction_set I !! k = None.
Proof.
  intros H. apply elem_of_list_to_map_2 in H.
  repeat (apply elem_of_cons in H as [[= -> ->]|H]; [done|]).
  by apply elem_of_nil in H.
Qed.

Lemma in_dict_spec {V} (k : string) (d : gmap string V) :
  in_dict k d = true ↔ is_Some (d !! k).
Proof. apply bool_decide_eq_true. Qed.

(** A 16-bit pattern read as a signed number gives back what was masked,
    as long as that fits. *)
Lemma signed16_mask (x : Z) :
  - 2 ^ 15 ≤ x < 2 ^ 15 → signed16 (Z.land x 0xFFFF) = x.
Proof.
  intros Hx.
  assert (Z.land x 0xFFFF = x `mod` 2 ^ 16) as ->
    by apply (Z.land_ones x 16 ltac:(lia)).
  unfold signed16.
  destruct (Z.le_gt_cases 0 x) as [Hpos|Hneg].
  - rewrite Z.mod_small by lia.
    destruct (Z.ltb_spec x (2 ^ 15)); lia.
  - assert (x `mod` 2 ^ 16 = x + 2 ^ 16) as ->.
    { rewrite <- (Z_mod_plus_full x 1 (2 ^ 16)).
      apply Z.mod_small. lia. }
    destruct (Z.ltb_spec (x + 2 ^ 16) (2 ^ 15)); lia.
Qed.

Lemma mask16_range (x : Z) : 0 ≤ Z.land x 0xFFFF < 2 ^ 16.
Proof.
  assert (Z.land x 0xFFFF = x `mod` 2 ^ 16) as ->
    by apply (Z.land_ones x 16 ltac:(lia)).
  apply Z.mod_pos_bound. lia.
Qed.

(** Opcode, two registers and a 16-bit field side by side. *)
Lemma i_type_word (opc frs frt f16 : string) (ns nt v : Z) :
  field 6 (bin_value opc) opc → field 5 ns frs → field 5 nt frt →
  field 16 v f16 →
  field 32 (bin_value opc * 2 ^ 26 + ns * 2 ^ 21 + nt * 2 ^ 16 + v)
    (opc +:+ frs +:+ frt +:+ f16).
Proof.
  intros Fo Fs Ft Ff.
  pose proof (field_app _ _ _ _ _ _ Fo
                (field_app _ _ _ _ _ _ Fs
                   (field_app _ _ _ _ _ _ Ft Ff))) as (Hlen & Hbits & Hval).
  split_and!; [done..|]. rewrite Hval. simpl Z.of_nat. lia.
Qed.

(** The I-type branch of the encoder, once the mnemonic is known to be in
    the I table. *)
Lemma i_type_code
    (text : string) (labels : gmap string Z) (a : Z)
    (op opc : string) (operands : list string) :
  re_split text = op :: operands →
  instruction_set I !! upper op = Some opc →
  instruction_to_machine_code text labels a
  = (rt ← getitem operands 0 ≫= reg_to_bin;
     rs ← getitem operands 1 ≫= reg_to_bin;
     if in_list (upper op) ["LW"; "SW"] then
       offset ← getitem operands 2 ≫= int;
       Ok (Some (opc +:+ rs +:+ rt +:+ format_b 16 offset))
     else if in_list (upper op) ["BEQ"; "BNE"] then
       target ← getitem operands 2 ≫= getkey labels;
       Ok (Some (opc +:+ rs +:+ rt
                 +:+ format_b 16 (Z.land (Z.shiftr (target - a - 4) 2) 0xFFFF)))
     else
       n ← getitem operands 2 ≫= int;
       Ok (Some (opc +:+ rs +:+ rt +:+ format_b 16 (Z.land n 0xFFFF)))).
Proof.
  intros Htok Hopc. unfold instruction_to_machine_code. rewrite Htok.
  change (item (op :: operands) 0) with op.
  change (drop 1 (op :: operands)) with operands.
  rewrite (in_dict_false _ _ (i_not_r _ _ Hopc)), (in_dict_true _ _ _ Hopc).
  by rewrite (getkey_ok _ _ _ Hopc).
Qed.

Lemma r_type_code
    (text : string) (labels : gmap string Z) (a : Z)
    (op funct : string) (operands : list string) :
  re_split text = op :: operands →
  instruction_set R !! upper op = Some funct →
  instruction_to_machine_code text labels a
  = (rd ← getitem operands 0 ≫= reg_to_bin;
     rs ← getitem operands 1 ≫= reg_to_bin;
     rt ← getitem operands 2 ≫= reg_to_bin;
     shamt ← (if in_list (upper op) ["SLL"; "SRL"]
              then n ← getitem operands 3 ≫= int; Ok (format_b 5 n)
              else Ok "00000");
     Ok (Some ("000000" +:+ rs +:+ rt +:+ rd +:+ shamt +:+ funct))).
Proof.
  intros Htok Hfunct. unfold instruction_to_machine_code. rewrite Htok.
  change (item (op :: operands) 0) with op.
  change (drop 1 (op :: operands)) with operands.
  rewrite (in_dict_true _ _ _ Hfunct).
  by rewrite (getkey_ok _ _ _ Hfunct).
Qed.

Lemma j_type_code
    (text : string) (labels : gmap string Z) (a : Z)
    (op opc : string) (operands : list string) :
  re_split text = op :: operands →
  instruction_set J !! upper op = Some opc →
  instruction_to_machine_code text labels a
  = (target ← getitem operands 0 ≫= getkey labels;
     Ok (Some (opc +:+ format_b 26 (Z.shiftr target 2)))).
Proof.
  intros Htok Hopc. unfold instruction_to_machine_code. rewrite Htok.
  change (item (op :: operands) 0) with op.
  change (drop 1 (op :: operands)) with operands.
  destruct (j_not_r_i _ _ Hopc) as [HR HI].
  rewrite (in_dict_false _ _ HR), (in_dict_false _ _ HI), (in_dict_true _ _ _ Hopc).
  by rewrite (getkey_ok _ _ _ Hopc).
Qed.

Lemma getkey_missing {V} (k : string) (d : gmap string V) :
  d !! k = None → getkey d k = Raise KeyError.
Proof. unfold getkey. by intros ->. Qed.

Lemma getitem_short (l : list string) (k : nat) :
  (List.length l ≤ k)%nat → getitem l k = Raise IndexError.
Proof. intros H. unfold getitem. by rewrite lookup_ge_None_2. Qed.

Lemma reg_to_bin_some (tok : string) :
  is_Some (int_opt (tail tok)) → ∃ digits, reg_to_bin tok = Ok digits.
Proof.
  intros [n Hn]. exists (format_b 5 n). unfold reg_to_bin.
  by rewrite (int_ok _ _ Hn).
Qed.

End EncoderMore.

(** ** Further properties of the encoder *)

(** X10. ADDI, ANDI, BLEZ and BGTZ with operands [rt, rs, n], register
    numbers from 0 to 31 and an integer [n]: the result is 32 binary
    digits, opcode, rs, rt and the low 16 bits of [n]. An [n] from -32768
    to 32767 can be read back from the low 16 digits as a signed
    number. *)
Theorem immediate_layout
    (text : string) (labels : gmap string Z) (a : Z)
    (op rt rs imm : string) (more : list string) (nt ns n : Z) :
  re_split text = op :: rt :: rs :: imm :: more →
  upper op ∈ ["ADDI"; "ANDI"; "BLEZ"; "BGTZ"] →
  register rt nt → register rs ns → int_opt imm = Some n →
  ∃ opc word,
    instruction_set I !! upper op = Some opc
    ∧ instruction_to_machine_code text labels a = Ok (Some word)
    ∧ field 32 (bin_value opc * 2 ^ 26 + ns * 2 ^ 21 + nt * 2 ^ 16
                + Z.land n 0xFFFF) word
    ∧ (- 2 ^ 15 ≤ n < 2 ^ 15 → signed16 (bin_value word `mod` 2 ^ 16) = n).
Proof.
  intros Htok Hop Hrt Hrs Himm.
  assert (∃ opc, instruction_set I !! upper op = Some opc
                 ∧ in_list (upper op) ["LW"; "SW"] = false
                 ∧ in_list (upper op) ["BEQ"; "BNE"] = false)
    as (opc & Hopc & Hlw & Hbr).
  { repeat (apply elem_of_cons in Hop as [->|Hop];
            [eexists; split_and!; reflexivity|]).
    by apply elem_of_nil in Hop. }
  destruct (reg_to_bin_register _ _ Hrt) as [Ert Frt].
  destruct (reg_to_bin_register _ _ Hrs) as [Ers Frs].
  pose proof (format_b_field 16 _ ltac:(lia) (mask16_range n)) as Fimm.
  pose proof (i_type_word _ _ _ _ _ _ _
                (instruction_set_codes _ _ _ Hopc) Frs Frt Fimm) as Fword.
  exists opc, (opc +:+ format_b 5 ns +:+ format_b 5 nt
               +:+ format_b 16 (Z.land n 0xFFFF)).
  split_and!; [done| |done|].
  - rewrite (i_type_code _ _ _ _ _ _ Htok Hopc), Hlw, Hbr.
    rewrite !getitem_S, !getitem_0, !bind_ok, Ert, Ers, !bind_ok.
    by rewrite (int_ok _ _ Himm), bind_ok.
  - intros Hn. destruct Fword as (_ & _ & ->).
    pose proof (mask16_range n).
    replace (bin_value opc * 2 ^ 26 + ns * 2 ^ 21 + nt * 2 ^ 16 + Z.land n 65535)
      with (Z.land n 65535 + (bin_value opc * 2 ^ 10 + ns * 2 ^ 5 + nt) * 2 ^ 16)
      by lia.
    rewrite Z_mod_plus_full, Z.mod_small by lia.
    by apply signed16_mask.
Qed.

Lemma immediate_layout_witness :
  ∃ opc word,
    instruction_set I !! upper "addi" = Some opc
    ∧ instruction_to_machine_code "addi $8, $9, -1" ∅ 0x00400000 = Ok (Some word)
    ∧ field 32 (bin_value opc * 2 ^ 26 + 9 * 2 ^ 21 + 8 * 2 ^ 16
                + Z.land (-1) 0xFFFF) word
    ∧ (- 2 ^ 15 ≤ -1 < 2 ^ 15 → signed16 (bin_value word `mod` 2 ^ 16) = -1).
Proof.
  apply (immediate_layout "addi $8, $9, -1" ∅ 0x00400000
           "addi" "$8" "$9" "-1" [] 8 9 (-1)).
  - reflexivity.
  - apply list_elem_of_here.
  - split; [reflexivity | lia].
  - split; [reflexivity | lia].
  - reflexivity.
Defined.

(** X11. BEQ and BNE with operands [rt, rs, label], register numbers from
    0 to 31 and a label of the table: the result is 32 binary digits,
    opcode, then rs before rt, then the masked word offset. *)
Theorem branch_layout
    (text : string) (labels : gmap string Z) (a : Z)
    (op rt rs lbl : string) (more : list string) (nt ns target : Z) :
  re_split text = op :: rt :: rs :: lbl :: more →
  upper op = "BEQ" ∨ upper op = "BNE" →
  register rt nt → register rs ns → labels !! lbl = Some target →
  ∃ opc word,
    instruction_set I !! upper op = Some opc
    ∧ instruction_to_machine_code text labels a = Ok (Some word)
    ∧ field 32 (bin_value opc * 2 ^ 26 + ns * 2 ^ 21 + nt * 2 ^ 16
                + Z.land (Z.shiftr (target - a - 4) 2) 0xFFFF) word.
Proof.
  intros Htok Hop Hrt Hrs Hlbl.
  assert (∃ opc, instruction_set I !! upper op = Some opc
                 ∧ in_list (upper op) ["LW"; "SW"] = false
                 ∧ in_list (upper op) ["BEQ"; "BNE"] = true)
    as (opc & Hopc & Hlw & Hbr)
    by (destruct Hop as [-> | ->]; eexists; split_and!; reflexivity).
  destruct (reg_to_bin_register _ _ Hrt) as [Ert Frt].
  destruct (reg_to_bin_register _ _ Hrs) as [Ers Frs].
  pose proof (format_b_field 16 _ ltac:(lia)
                (mask16_range (Z.shiftr (target - a - 4) 2))) as Foff.
  pose proof (i_type_word _ _ _ _ _ _ _
                (instruction_set_codes _ _ _ Hopc) Frs Frt Foff) as Fword.
  exists opc. eexists. split_and!; [done| |exact Fword].
  rewrite (i_type_code _ _ _ _ _ _ Htok Hopc), Hlw, Hbr.
  rewrite !getitem_S, !getitem_0, !bind_ok, Ert, Ers, !bind_ok.
  by rewrite (getkey_ok _ _ _ Hlbl), bind_ok.
Qed.

Lemma branch_layout_witness :
  ∃ opc word,
    instruction_set I !! upper "BNE" = Some opc
    ∧ instruction_to_machine_code "BNE $8, $9, END" {["END" := 0x00400020]}
        0x00400010 = Ok (Some word)
    ∧ field 32 (bin_value opc * 2 ^ 26 + 9 * 2 ^ 21 + 8 * 2 ^ 16
                + Z.land (Z.shiftr (0x00400020 - 0x00400010 - 4) 2) 0xFFFF) word.
Proof.
  apply (branch_layout "BNE $8, $9, END" {["END" := 0x00400020]} 0x00400010
           "BNE" "$8" "$9" "END" [] 8 9 0x00400020).
  - reflexivity.
  - by right.
  - split; [reflexivity | lia].
  - split; [reflexivity | lia].
  - reflexivity.
Defined.

(** X12. LW and SW with operands [rt, rs, offset], register numbers from
    0 to 31 and an offset from 0 to 65535: the result is 32 binary digits,
    opcode, rs, rt and the offset as it is, not scaled. *)
Theorem load_store_layout
    (text : string) (labels : gmap string Z) (a : Z)
    (op rt rs imm : string) (more : list string) (nt ns offset : Z) :
  re_split text = op :: rt :: rs :: imm :: more →
  upper op = "LW" ∨ upper op = "SW" →
  register rt nt → register rs ns → int_opt imm = Some offset →
  0 ≤ offset < 2 ^ 16 →
  ∃ opc word,
    instruction_set I !! upper op = Some opc
    ∧ instruction_to_machine_code text labels a = Ok (Some word)
    ∧ field 32 (bin_value opc * 2 ^ 26 + ns * 2 ^ 21 + nt * 2 ^ 16 + offset)
        word.
Proof.
  intros Htok Hop Hrt Hrs Himm Hrange.
  assert (∃ opc, instruction_set I !! upper op = Some opc
                 ∧ in_list (upper op) ["LW"; "SW"] = true)
    as (opc & Hopc & Hlw)
    by (destruct Hop as [-> | ->]; eexists; split; reflexivity).
  destruct (reg_to_bin_register _ _ Hrt) as [Ert Frt].
  destruct (reg_to_bin_register _ _ Hrs) as [Ers Frs].
  pose proof (format_b_field 16 offset ltac:(lia) Hrange) as Foff.
  pose proof (i_type_word _ _ _ _ _ _ _
                (instruction_set_codes _ _ _ Hopc) Frs Frt Foff) as Fword.
  exists opc. eexists. split_and!; [done| |exact Fword].
  rewrite (i_type_code _ _ _ _ _ _ Htok Hopc), Hlw.
  rewrite !getitem_S, !getitem_0, !bind_ok, Ert, Ers, !bind_ok.
  by rewrite (int_ok _ _ Himm), bind_ok.
Qed.

Lemma load_store_layout_witness :
  ∃ opc word,
    instruction_set I !! upper "sw" = Some opc
    ∧ instruction_to_machine_code "sw $8, $29, 12" ∅ 0x00400000 = Ok (Some word)
    ∧ field 32 (bin_value opc * 2 ^ 26 + 29 * 2 ^ 21 + 8 * 2 ^ 16 + 12) word.
Proof.
  apply (load_store_layout "sw $8, $29, 12" ∅ 0x00400000
           "sw" "$8" "$29" "12" [] 8 29 12).
  - reflexivity.
  - by right.
  - split; [reflexivity | lia].
  - split; [reflexivity | lia].
  - reflexivity.
  - lia.
Defined.

(** X13. J to a label whose address is below 2^28: the result is 32 binary
    digits, the opcode 000010 and the address shifted right by two; for an
    address that is a multiple of four, four times the low 26 bits is the
    address again. *)
Theorem jump_layout
    (text : string) (labels : gmap string Z) (a : Z)
    (op lbl : string) (more : list string) (target : Z) :
  re_split text = op :: lbl :: more →
  upper op = "J" →
  labels !! lbl = Some target →
  0 ≤ target < 2 ^ 28 →
  ∃ word,
    instruction_to_machine_code text labels a = Ok (Some word)
    ∧ field 32 (2 * 2 ^ 26 + Z.shiftr target 2) word
    ∧ (target `mod` 4 = 0 → bin_value word `mod` 2 ^ 26 * 4 = target).
Proof.
  intros Htok Hop Hlbl Hrange.
  assert (instruction_set J !! upper op = Some "000010") as Hopc
    by (by rewrite Hop).
  assert (0 ≤ Z.shiftr target 2 < 2 ^ 26) as Hshift.
  { rewrite Z.shiftr_div_pow2 by lia. split.
    - apply Z.div_pos; lia.
    - apply Z.div_lt_upper_bound; lia. }
  pose proof (format_b_field 26 (Z.shiftr target 2) ltac:(lia) Hshift) as Ff.
  assert (field 6 2 "000010") as Fo by done.
  pose proof (field_app _ _ _ _ _ _ Fo Ff) as Fword.
  exists ("000010" +:+ format_b 26 (Z.shiftr target 2)).
  split_and!; [|exact Fword|].
  - rewrite (j_type_code _ _ _ _ _ _ Htok Hopc).
    by rewrite getitem_0, bind_ok, (getkey_ok _ _ _ Hlbl), bind_ok.
  - intros Haligned. destruct Fword as (_ & _ & ->).
    change (Z.of_nat 26) with 26.
    rewrite Z.add_comm, Z_mod_plus_full, Z.mod_small by lia.
    rewrite Z.shiftr_div_pow2 by lia. change (2 ^ 2) with 4.
    pose proof (Z.div_mod target 4 ltac:(lia)). lia.
Qed.

Lemma jump_layout_witness :
  ∃ word,
    instruction_to_machine_code "j END" {["END" := 0x00400020]} 0x00400000
    = Ok (Some word)
    ∧ field 32 (2 * 2 ^ 26 + Z.shiftr 0x00400020 2) word
    ∧ (0x00400020 `mod` 4 = 0 → bin_value word `mod` 2 ^ 26 * 4 = 0x00400020).
Proof.
  apply (jump_layout "j END" {["END" := 0x00400020]} 0x00400000
           "j" "END" [] 0x00400020).
  - reflexivity.
  - reflexivity.
  - reflexivity.
  - lia.
Defined.

(** X14. A branch or a jump to a name that is not in the label table
    raises [KeyError]; no word comes out. *)
Theorem undefined_label_raises
    (text : string) (labels : gmap string Z) (a : Z)
    (op : string) (operands : list string) :
  re_split text = op :: operands →
  (∀ rt rs lbl more,
     operands = rt :: rs :: lbl :: more →
     upper op = "BEQ" ∨ upper op = "BNE" →
     is_Some (int_opt (tail rt)) → is_Some (int_opt (tail rs)) →
     labels !! lbl = None →
     instruction_to_machine_code text labels a = Raise KeyError)
  ∧ (∀ lbl more,
       operands = lbl :: more → upper op = "J" → labels !! lbl = None →
       instruction_to_machine_code text labels a = Raise KeyError).
Proof.
  intros Htok. split.
  - intros rt rs lbl more -> Hop Hrt Hrs Hlbl.
    assert (∃ opc, instruction_set I !! upper op = Some opc
                   ∧ in_list (upper op) ["LW"; "SW"] = false
                   ∧ in_list (upper op) ["BEQ"; "BNE"] = true)
      as (opc & Hopc & Hlw & Hbr)
      by (destruct Hop as [-> | ->]; eexists; split_and!; reflexivity).
    destruct (reg_to_bin_some _ Hrt) as [frt Ert].
    destruct (reg_to_bin_some _ Hrs) as [frs Ers].
    rewrite (i_type_code _ _ _ _ _ _ Htok Hopc), Hlw, Hbr.
    rewrite !getitem_S, !getitem_0, !bind_ok, Ert, Ers, !bind_ok.
    by rewrite (getkey_missing _ _ Hlbl).
  - intros lbl more -> Hop Hlbl.
    assert (instruction_set J !! upper op = Some "000010") as Hopc
      by (by rewrite Hop).
    rewrite (j_type_code _ _ _ _ _ _ Htok Hopc).
    by rewrite getitem_0, bind_ok, (getkey_missing _ _ Hlbl).
Qed.

Lemma undefined_label_raises_witness :
  instruction_to_machine_code "BEQ $1, $2, loop" {["LOOP" := 0x00400000]}
    0x00400004 = Raise KeyError
  ∧ instruction_to_machine_code "J" {["LOOP" := 0x00400000]} 0x00400004
    = Raise IndexError.
Proof.
  split; [|reflexivity].
  destruct (undefined_label_raises "BEQ $1, $2, loop" {["LOOP" := 0x00400000]}
              0x00400004 "BEQ" ["$1"; "$2"; "loop"]) as [Hbranch _].
  - reflexivity.
  - apply (Hbranch "$1" "$2" "loop" []).
    + reflexivity.
    + by left.
    + by eexists.
    + by eexists.
    + reflexivity.
Defined.

(** X15. Too few operands raise [IndexError]: fewer than three for an R-
    or I-type mnemonic, three for SLL and SRL, none for J. (The operands
    that are there are taken to read as register numbers; see X16.) *)
Theorem missing_operand_raises
    (text : string) (labels : gmap string Z) (a : Z)
    (op : string) (operands : list string) :
  re_split text = op :: operands →
  Forall (λ t, is_Some (int_opt (tail t))) operands →
  (is_Some (instruction_set R !! upper op)
   ∨ is_Some (instruction_set I !! upper op) →
   (List.length operands < 3)%nat →
   instruction_to_machine_code text labels a = Raise IndexError)
  ∧ (upper op ∈ ["SLL"; "SRL"] → List.length operands = 3%nat →
     instruction_to_machine_code text labels a = Raise IndexError)
  ∧ (upper op = "J" → operands = [] →
     instruction_to_machine_code text labels a = Raise IndexError).
Proof.
  intros Htok Hvalid.
  assert (∀ k t, operands !! k = Some t →
            ∃ d, (getitem operands k ≫= reg_to_bin) = Ok d) as Hreg.
  { intros k t Hk. unfold getitem. rewrite Hk, bind_ok.
    apply reg_to_bin_some. by eapply Forall_lookup_1 in Hvalid. }
  assert (∀ k, (List.length operands ≤ k)%nat →
            (getitem operands k ≫= reg_to_bin) = Raise IndexError) as Hshort
    by (intros k Hk; by rewrite getitem_short).
  split_and!.
  - intros [[funct Hfunct]|[opc Hopc]] Hlen.
    + rewrite (r_type_code _ _ _ _ _ _ Htok Hfunct).
      destruct operands as [|t0 [|t1 [|t2 more]]]; [| | |simpl in Hlen; lia].
      * by rewrite Hshort by (simpl; lia).
      * destruct (Hreg 0%nat t0 eq_refl) as [d0 ->].
        by rewrite bind_ok, Hshort by (simpl; lia).
      * destruct (Hreg 0%nat t0 eq_refl) as [d0 ->].
        destruct (Hreg 1%nat t1 eq_refl) as [d1 ->].
        by rewrite !bind_ok, Hshort by (simpl; lia).
    + rewrite (i_type_code _ _ _ _ _ _ Htok Hopc).
      destruct operands as [|t0 [|t1 [|t2 more]]]; [| | |simpl in Hlen; lia].
      * by rewrite Hshort by (simpl; lia).
      * destruct (Hreg 0%nat t0 eq_refl) as [d0 ->].
        by rewrite bind_ok, Hshort by (simpl; lia).
      * destruct (Hreg 0%nat t0 eq_refl) as [d0 ->].
        destruct (Hreg 1%nat t1 eq_refl) as [d1 ->].
        rewrite !bind_ok.
        by destruct (in_list (upper op) ["LW"; "SW"]),
             (in_list (upper op) ["BEQ"; "BNE"]).
  - intros Hop Hlen.
    assert (∃ funct, instruction_set R !! upper op = Some funct
                     ∧ in_list (upper op) ["SLL"; "SRL"] = true)
      as (funct & Hfunct & Hshift).
    { repeat (apply elem_of_cons in Hop as [->|Hop];
              [eexists; split; reflexivity|]).
      by apply elem_of_nil in Hop. }
    rewrite (r_type_code _ _ _ _ _ _ Htok Hfunct), Hshift.
    destruct operands as [|t0 [|t1 [|t2 [|t3 more]]]]; try done.
    destruct (Hreg 0%nat t0 eq_refl) as [d0 ->].
    destruct (Hreg 1%nat t1 eq_refl) as [d1 ->].
    destruct (Hreg 2%nat t2 eq_refl) as [d2 ->].
    by rewrite !bind_ok.
  - intros Hop ->.
    assert (instruction_set J !! upper op = Some "000010") as Hopc
      by (by rewrite Hop).
    by rewrite (j_type_code _ _ _ _ _ _ Htok Hopc).
Qed.

Lemma missing_operand_raises_witness :
  instruction_to_machine_code "ADD $1, $2" ∅ 0x00400000 = Raise IndexError.
Proof.
  destruct (missing_operand_raises "ADD $1, $2" ∅ 0x00400000 "ADD" ["$1"; "$2"])
    as (Hfew & _ & _).
  - reflexivity.
  - repeat constructor; by eexists.
  - apply Hfew; [left; by eexists | simpl; lia].
Defined.

(** X16. A first or second operand of an R- or I-type instruction whose
    text after the first character does not read as an integer raises
    [ValueError], whatever follows it, as long as the operands before it
    do read as register numbers. Register names such as [$t0] are of this
    kind. *)
Theorem malformed_register_raises
    (text : string) (labels : gmap string Z) (a : Z)
    (op bad : string) (good more : list string) :
  re_split text = op :: good ++ bad :: more →
  is_Some (instruction_set R !! upper op)
  ∨ is_Some (instruction_set I !! upper op) →
  Forall (λ t, is_Some (int_opt (tail t))) good →
  (List.length good < 2)%nat →
  int_opt (tail bad) = None →
  instruction_to_machine_code text labels a = Raise ValueError.
Proof.
  intros Htok Hop Hgood Hlen Hbad.
  pose proof (reg_to_bin_malformed bad Hbad) as Ebad.
  destruct good as [|t0 [|t1 good]]; [| |simpl in Hlen; lia].
  - destruct Hop as [[funct Hfunct]|[opc Hopc]].
    + rewrite (r_type_code _ _ _ _ _ _ Htok Hfunct).
      by rewrite app_nil_l, getitem_0, bind_ok, Ebad.
    + rewrite (i_type_code _ _ _ _ _ _ Htok Hopc).
      by rewrite app_nil_l, getitem_0, bind_ok, Ebad.
  - apply Forall_cons in Hgood as [H0 _].
    destruct (reg_to_bin_some _ H0) as [d0 E0].
    destruct Hop as [[funct Hfunct]|[opc Hopc]].
    + rewrite (r_type_code _ _ _ _ _ _ Htok Hfunct). cbn [app].
      by rewrite !getitem_S, !getitem_0, !bind_ok, E0, !bind_ok, Ebad.
    + rewrite (i_type_code _ _ _ _ _ _ Htok Hopc). cbn [app].
      by rewrite !getitem_S, !getitem_0, !bind_ok, E0, !bind_ok, Ebad.
Qed.

Lemma malformed_register_raises_witness :
  instruction_to_machine_code "ADD $t0, $t1, $t2" ∅ 0x00400000
  = Raise ValueError.
Proof.
  apply (malformed_register_raises "ADD $t0, $t1, $t2" ∅ 0x00400000
           "ADD" "$t0" [] ["$t1"; "$t2"]).
  - reflexivity.
  - left. by eexists.
  - constructor.
  - simpl. lia.
  - reflexivity.
Defined.

(** X17. Only BEQ, BNE and J look at the label table and at the
    instruction's own address: for every other text the encoder gives the
    same outcome whatever the table and the address are. *)
Theorem labels_unused
    (text : string) (labels1 labels2 : gmap string Z) (a1 a2 : Z) :
  upper (item (re_split text) 0) ∉ ["BEQ"; "BNE"; "J"] →
  instruction_to_machine_code text labels1 a1
  = instruction_to_machine_code text labels2 a2.
Proof.
  intros Hop. unfold instruction_to_machine_code. cbv zeta.
  set (op := upper (item (re_split text) 0)) in *.
  assert (in_list op ["BEQ"; "BNE"] = false) as Hbr.
  { apply bool_decide_eq_false_2. intros Hin. apply Hop.
    apply elem_of_cons in Hin as [->|Hin]; [apply list_elem_of_here|].
    apply elem_of_cons in Hin as [->|Hin]; [|by apply elem_of_nil in Hin].
    apply list_elem_of_further, list_elem_of_here. }
  assert (in_dict op (instruction_set J) = false) as Hj.
  { apply bool_decide_eq_false_2. intros [v Hv]. apply Hop.
    apply elem_of_list_to_map_2 in Hv.
    apply elem_of_cons in Hv as [[= -> ->]|Hv]; [|by apply elem_of_nil in Hv].
    do 2 apply list_elem_of_further. apply list_elem_of_here. }
  rewrite Hbr, Hj.
  destruct (in_dict op (instruction_set R)); [done|].
  destruct (in_dict op (instruction_set I)); [|done].
  by destruct (in_list op ["LW"; "SW"]).
Qed.

Lemma labels_unused_witness :
  instruction_to_machine_code "LW $8, $9, 4" ∅ 0
  = instruction_to_machine_code "LW $8, $9, 4" {["L" := 8]} 0x00400000.
Proof.
  apply (labels_unused "LW $8, $9, 4" ∅ {["L" := 8]} 0 0x00400000).
  intros Hin. repeat (apply elem_of_cons in Hin as [Hin|Hin]; [discriminate|]).
  by apply elem_of_nil in Hin.
Defined.

(** X18. The encoder of a register checks no range: a number of 32 or more
    comes out with more than five digits, and a negative number with a
    minus sign. *)
Theorem reg_to_bin_out_of_range (tok : string) (n : Z) :
  int_opt (tail tok) = Some n →
  ∃ digits,
    reg_to_bin tok = Ok digits
    ∧ (32 ≤ n → (5 < String.length digits)%nat)
    ∧ (n < 0 → is_bits digits = false).
Proof.
  intros Hint. exists (format_b 5 n). unfold reg_to_bin.
  rewrite (int_ok _ _ Hint), bind_ok. split_and!; [done| |].
  - apply (format_b_overflow 5).
  - apply format_b_negative.
Qed.

Lemma reg_to_bin_out_of_range_witness :
  ∃ digits,
    reg_to_bin "$40" = Ok digits
    ∧ (32 ≤ 40 → (5 < String.length digits)%nat)
    ∧ (40 < 0 → is_bits digits = false).
Proof. apply (reg_to_bin_out_of_range "$40" 40). reflexivity. Defined.

(** ** The output of the assembler *)

Section Output.

Lemma hex_digit_ok (d : Z) :
  0 ≤ d < 16 →
  hex_digit_value (hex_digit d) = d ∧ is_hex_digit (hex_digit d) = true.
Proof.
  intros Hd.
  assert (d = 0 ∨ d = 1 ∨ d = 2 ∨ d = 3 ∨ d = 4 ∨ d = 5 ∨ d = 6 ∨ d = 7
          ∨ d = 8 ∨ d = 9 ∨ d = 10 ∨ d = 11 ∨ d = 12 ∨ d = 13 ∨ d = 14
          ∨ d = 15) as Hcases by lia.
  repeat (destruct Hcases as [->|Hcases]; [done|]). by subst.
Qed.

Lemma hex_value_from_app (a b : string) (acc : Z) :
  hex_value_from acc (a +:+ b) = hex_value_from (hex_value_from acc a) b.
Proof. revert acc. induction a as [|c a IH]; intros acc; simpl; [done | apply IH]. Qed.

Lemma is_hex_app (a b : string) : is_hex (a +:+ b) = is_hex a && is_hex b.
Proof.
  induction a as [|c a IH]; simpl; [done|].
  rewrite IH. by destruct (is_hex_digit c).
Qed.

(** With enough fuel, [hex_from] puts in front of [acc] the hexadecimal
    digits of [n]: they read back as [n], and they are no more than any
    width that has room for [n]. *)
Lemma hex_from_digits (fuel : nat) (n : Z) (acc : string) :
  0 ≤ n < 16 ^ Z.of_nat fuel →
  ∃ ds, hex_from fuel n acc = ds +:+ acc
        ∧ hex_value ds = n ∧ is_hex ds = true
        ∧ ∀ w : nat, (0 < w)%nat → n < 16 ^ Z.of_nat w →
            (String.length ds ≤ w)%nat.
Proof.
  revert n acc. induction fuel as [|fuel IH]; intros n acc Hn.
  - exists "". simpl in Hn.
    split_and!; [done | unfold hex_value; simpl; lia | done |].
    intros w _ _. simpl. lia.
  - cbn [hex_from].
    assert (0 ≤ n `mod` 16 < 16) as Hd by (apply Z.mod_pos_bound; lia).
    destruct (hex_digit_ok _ Hd) as [Hval Hhex].
    destruct (Z.ltb_spec n 16) as [Hsmall|Hbig].
    + exists (String (hex_digit (n `mod` 16)) "").
      split_and!; [done| | |].
      * unfold hex_value. simpl. rewrite Hval, Z.mod_small; lia.
      * simpl. by rewrite Hhex.
      * intros w Hw _. simpl. lia.
    + rewrite Nat2Z.inj_succ, Z.pow_succ_r in Hn by lia.
      destruct (IH (n `div` 16) (String (hex_digit (n `mod` 16)) acc))
        as (ds & -> & Hds & Hdsx & Hlen).
      { split; [apply Z.div_pos; lia | apply Z.div_lt_upper_bound; lia]. }
      exists (ds +:+ String (hex_digit (n `mod` 16)) "").
      split_and!.
      * by rewrite str_app_assoc.
      * unfold hex_value in *. rewrite hex_value_from_app, Hds. simpl.
        rewrite Hval. pose proof (Z.div_mod n 16 ltac:(lia)). lia.
      * rewrite is_hex_app, Hdsx. simpl. by rewrite Hhex.
      * intros w Hw Hnw. rewrite str_length_app. simpl.
        destruct w as [|[|w]]; [lia| simpl in Hnw; lia |].
        assert (String.length ds ≤ S w)%nat; [|lia].
        apply Hlen; [lia|].
        rewrite Nat2Z.inj_succ, Z.pow_succ_r in Hnw by lia.
        apply Z.div_lt_upper_bound; lia.
Qed.

(** The fuel of [nat_hex] is enough for every number. *)
Lemma nat_hex_digits (n : Z) :
  0 ≤ n →
  hex_value (nat_hex n) = n ∧ is_hex (nat_hex n) = true
  ∧ ∀ w : nat, (0 < w)%nat → n < 16 ^ Z.of_nat w →
      (String.length (nat_hex n) ≤ w)%nat.
Proof.
  intros Hn. unfold nat_hex.
  destruct (hex_from_digits (S (Z.to_nat (Z.log2 n))) n "")
    as (ds & -> & Hds).
  - split; [done|]. rewrite Nat2Z.inj_succ, Z2Nat.id by apply Z.log2_nonneg.
    destruct (Z.eq_dec n 0) as [->|Hpos]; [done|].
    destruct (Z.log2_spec n ltac:(lia)) as [_ Hlt].
    assert (2 ^ Z.succ (Z.log2 n) ≤ 16 ^ Z.succ (Z.log2 n))
      by (apply Z.pow_le_mono_l; lia).
    lia.
  - by rewrite str_app_empty_r.
Qed.

Lemma zeros_hex (k : nat) (s : string) :
  hex_value (zeros k +:+ s) = hex_value s
  ∧ is_hex (zeros k +:+ s) = is_hex s.
Proof. unfold hex_value. induction k as [|k IH]; [done|]. simpl. apply IH. Qed.

(** An address of at most 32 bits is written as exactly eight hexadecimal
    digits that read back as the address. *)
Lemma format_X_address (a : Z) :
  0 ≤ a < 2 ^ 32 →
  String.length (format_X 8 a) = 8%nat ∧ is_hex (format_X 8 a) = true
  ∧ hex_value (format_X 8 a) = a.
Proof.
  intros Ha. unfold format_X.
  destruct (Z.ltb_spec a 0) as [|_]; [lia|].
  destruct (nat_hex_digits a ltac:(lia)) as (Hval & Hhex & Hlen).
  specialize (Hlen 8%nat ltac:(lia) ltac:(simpl; lia)).
  unfold zfill. destruct (zeros_hex (8 - String.length (nat_hex a)) (nat_hex a))
    as [-> ->].
  rewrite str_length_app, zeros_length. split_and!; [lia | done | done].
Qed.

(** What the loop has written when every record was encoded, and when one
    was not. *)
Lemma write_all_ok (labels : gmap string Z) (records : list (Z * string))
    (codes : list (Z * option string)) :
  encode_all labels records = Ok codes →
  write_all labels records = ((λ o, render_line o.1 o.2) <$> codes, None)
  ∧ codes.*1 = records.*1
  ∧ Forall2 (λ r o, instruction_to_machine_code r.2 labels r.1 = Ok o.2)
      records codes.
Proof.
  revert codes. induction records as [|[a text] records IH]; intros codes.
  - intros [= <-]. split_and!; [done..|constructor].
  - cbn [encode_all write_all].
    destruct (instruction_to_machine_code text labels a) as [code|e] eqn:Hcode;
      [|done].
    rewrite bind_ok.
    destruct (encode_all labels records) as [more|e]; [|done].
    rewrite bind_ok. intros [= <-].
    destruct (IH more eq_refl) as (-> & Haddr & Hall).
    split_and!; [done | by rewrite !fmap_cons, Haddr | by constructor].
Qed.

Lemma write_all_raise (labels : gmap string Z)
    (pre post : list (Z * string)) (a : Z) (text : string)
    (codes : list (Z * option string)) (e : exn) :
  encode_all labels pre = Ok codes →
  instruction_to_machine_code text labels a = Raise e →
  encode_all labels (pre ++ (a, text) :: post) = Raise e
  ∧ write_all labels (pre ++ (a, text) :: post)
    = ((λ o, render_line o.1 o.2) <$> codes, Some e).
Proof.
  revert codes. induction pre as [|[a' text'] pre IH]; intros codes.
  - intros [= <-] Hraise. cbn [app encode_all write_all].
    by rewrite Hraise.
  - cbn [app encode_all write_all].
    destruct (instruction_to_machine_code text' labels a') as [code|e'];
      [|done].
    rewrite bind_ok.
    destruct (encode_all labels pre) as [more|e']; [|done].
    rewrite bind_ok. intros [= <-] Hraise.
    destruct (IH more eq_refl Hraise) as [-> ->]. done.
Qed.

Lemma replace_absent (old new s : string) :
  occurs old s = false → replace old new s = s.
Proof.
  unfold replace. induction s as [|c s IH]; [done|].
  cbn [occurs replace_from]. intros H.
  apply orb_false_elim in H as [-> H]. by rewrite IH.
Qed.

End Output.

(** ** Properties of the output *)

(** X19. When no record raises an exception, the output has one line for
    every record, in order: the record's address, a colon, a space, what
    the encoder returned, and a line feed. The addresses are the base plus
    four times the line's index. *)
Theorem assemble_writes_every_record
    (lines : list string) (codes : list (Z * option string)) :
  assemble lines = Ok codes →
  assemble_output lines = ((λ o, render_line o.1 o.2) <$> codes, None)
  ∧ codes.*1 = (λ i : nat, 0x00400000 + 4 * Z.of_nat i)
                 <$> seq 0 (List.length codes)
  ∧ Forall2 (λ r o,
       instruction_to_machine_code r.2 (parse_source_code lines).1 r.1
       = Ok o.2)
      (parse_source_code lines).2 codes.
Proof.
  unfold assemble, assemble_output.
  destruct (parse_source_code lines) as [labels records] eqn:Hparse.
  intros Hcodes.
  destruct (write_all_ok labels records codes Hcodes) as (Hw & Ha & Hall).
  split_and!; [done| |done].
  pose proof (addressed_scan lines scan_init addressed_init) as [_ Haddr].
  assert (records = instructions (scan lines scan_init)) as Hrec
    by (unfold parse_source_code in Hparse; by injection Hparse).
  rewrite Ha, Hrec, Haddr. f_equal. f_equal.
  rewrite <- Hrec. by rewrite <- (length_fmap fst records), <- Ha, length_fmap.
Qed.

Lemma assemble_writes_every_record_witness :
  assemble_output ["L: ADD $1, $2, $3"; "J L"]
  = ((λ o, render_line o.1 o.2)
       <$> [(0x00400000, Some "00000000010000110000100000100000");
            (0x00400004, Some "00001000000100000000000000000000")], None)
  ∧ [0x00400000; 0x00400004]
    = (λ i : nat, 0x00400000 + 4 * Z.of_nat i) <$> seq 0 2
  ∧ Forall2 (λ r o,
       instruction_to_machine_code r.2
         (parse_source_code ["L: ADD $1, $2, $3"; "J L"]).1 r.1 = Ok o.2)
      (parse_source_code ["L: ADD $1, $2, $3"; "J L"]).2
      [(0x00400000, Some "00000000010000110000100000100000");
       (0x00400004, Some "00001000000100000000000000000000")].
Proof.
  apply (assemble_writes_every_record ["L: ADD $1, $2, $3"; "J L"]
           [(0x00400000, Some "00000000010000110000100000100000");
            (0x00400004, Some "00001000000100000000000000000000")]).
  reflexivity.
Defined.

(** X20. The first record that raises an exception ends the run with that
    exception; the output then holds the lines of the records before it
    and nothing of the records behind it. *)
Theorem assemble_stops_at_first_failure
    (lines : list string) (pre post : list (Z * string)) (a : Z)
    (text : string) (codes : list (Z * option string)) (e : exn) :
  (parse_source_code lines).2 = pre ++ (a, text) :: post →
  encode_all (parse_source_code lines).1 pre = Ok codes →
  instruction_to_machine_code text (parse_source_code lines).1 a = Raise e →
  assemble lines = Raise e
  ∧ assemble_output lines = ((λ o, render_line o.1 o.2) <$> codes, Some e).
Proof.
  unfold assemble, assemble_output.
  destruct (parse_source_code lines) as [labels records].
  cbn [fst snd]. intros -> Hpre Hraise.
  by apply write_all_raise.
Qed.

Lemma assemble_stops_at_first_failure_witness :
  assemble ["ADD $1, $2, $3"; "J NOWHERE"; "ADD $1, $2, $3"] = Raise KeyError
  ∧ assemble_output ["ADD $1, $2, $3"; "J NOWHERE"; "ADD $1, $2, $3"]
    = ((λ o, render_line o.1 o.2)
         <$> [(0x00400000, Some "00000000010000110000100000100000")],
       Some KeyError).
Proof.
  apply (assemble_stops_at_first_failure
           ["ADD $1, $2, $3"; "J NOWHERE"; "ADD $1, $2, $3"]
           [(0x00400000, "ADD $1, $2, $3")] [(0x00400008, "ADD $1, $2, $3")]
           0x00400004 "J NOWHERE"); reflexivity.
Defined.

(** X21. The line written for a record of the scan pass whose address is
    below 2^32 starts with exactly eight hexadecimal digits, which read
    back as the address. *)
Theorem address_rendering
    (lines : list string) (a : Z) (text : string) (code : option string) :
  (a, text) ∈ (parse_source_code lines).2 →
  a < 2 ^ 32 →
  ∃ digits,
    render_line a code
    = digits +:+ ": " +:+ str_of code +:+ String newline ""
    ∧ String.length digits = 8%nat ∧ is_hex digits = true
    ∧ hex_value digits = a.
Proof.
  intros Hin Ha.
  apply parse_instructions_aligned in Hin as [k Hk].
  exists (format_X 8 a). split; [done|].
  apply format_X_address. unfold base_address in Hk. lia.
Qed.

Lemma address_rendering_witness :
  ∃ digits,
    render_line 0x00400004 None
    = digits +:+ ": " +:+ str_of None +:+ String newline ""
    ∧ String.length digits = 8%nat ∧ is_hex digits = true
    ∧ hex_value digits = 0x00400004.
Proof.
  apply (address_rendering ["ADD $1, $2, $3"; "XYZ"] 0x00400004 "XYZ" None).
  - apply (list_elem_of_lookup_2 _ 1%nat). reflexivity.
  - lia.
Defined.

(** X22. The name of the output file: a name without [.asm] in it is left
    as it is, so that the output goes to the source file itself; a name
    that ends in [.asm] behind a stem without a dot gets [.obj]
    instead. *)
Theorem output_filename_cases (filename stem : string) :
  (occurs ".asm" filename = false → output_filename filename = filename)
  ∧ (contains "." stem = false →
     output_filename (stem +:+ ".asm") = stem +:+ ".obj").
Proof.
  split; [apply replace_absent|].
  unfold output_filename, replace.
  induction stem as [|c stem IH]; [done|].
  cbn [contains]. destruct (Ascii.eqb_spec c ".") as [|Hc]; [done|].
  cbn [orb]. intros Hstem. cbn [String.append replace_from].
  assert (String.prefix ".asm" (String c (stem +:+ ".asm")) = false) as ->.
  { cbn [String.prefix]. destruct (ascii_dec "." c) as [<-|]; done. }
  by rewrite IH.
Qed.

Lemma output_filename_cases_witness :
  output_filename "prog.s" = "prog.s"
  ∧ output_filename ("prog" +:+ ".asm") = "prog" +:+ ".obj".
Proof.
  destruct (output_filename_cases "prog.s" "prog") as [Hsame Hobj].
  split; [apply Hsame | apply Hobj]; reflexivity.
Defined.

(** X23. The encoder returns [None] exactly when the first token, in
    capitals, is in none of the three tables; with a known mnemonic it
    returns a word or raises. *)
Theorem none_iff_unknown
    (text : string) (labels : gmap string Z) (a : Z) :
  instruction_to_machine_code text labels a = Ok None
  ↔ ∀ f, instruction_set f !! upper (item (re_split text) 0) = None.
Proof.
  split.
  - unfold instruction_to_machine_code. cbv zeta.
    set (op := upper (item (re_split text) 0)).
    set (rest := drop 1 (re_split text)).
    assert (∀ {A} (m : result A) (k : A → result (option string)),
              (∀ x, k x ≠ Ok None) → (m ≫= k) ≠ Ok None) as Hbind
      by (intros A [x|e] k Hk; [apply Hk | done]).
    destruct (in_dict op (instruction_set R)) eqn:HR.
    { intros H. exfalso. revert H.
      repeat (apply Hbind; intros ?). done. }
    destruct (in_dict op (instruction_set I)) eqn:HI.
    { intros H. exfalso. revert H.
      do 2 (apply Hbind; intros ?).
      destruct (in_list op ["LW"; "SW"]); [|destruct (in_list op ["BEQ"; "BNE"])];
        repeat (apply Hbind; intros ?); done. }
    destruct (in_dict op (instruction_set J)) eqn:HJ.
    { intros H. exfalso. revert H.
      repeat (apply Hbind; intros ?). done. }
    intros _ f.
    destruct (instruction_set f !! op) as [v|] eqn:Hv; [|done].
    destruct f; by rewrite (in_dict_true _ _ _ Hv) in *.
  - intros Hno. unfold instruction_to_machine_code.
    by rewrite !in_dict_false by apply Hno.
Qed.

(** ** The two passes together *)

Section Passes.

Lemma record_address (lines : list string) (i : nat) (a : Z) (text : string) :
  (parse_source_code lines).2 !! i = Some (a, text) →
  a = base_address + 4 * Z.of_nat i.
Proof.
  intros Hi.
  destruct (addressed_scan lines scan_init addressed_init) as [_ Haddr].
  assert ((instructions (scan lines scan_init)).*1 !! i = Some a) as Ha
    by (rewrite list_lookup_fmap; unfold parse_source_code in Hi;
        cbn [snd] in Hi; by rewrite Hi).
  rewrite Haddr, list_lookup_fmap in Ha.
  destruct (seq 0 (List.length (instructions (scan lines scan_init))) !! i)
    as [k|] eqn:Hk; [|done].
  apply lookup_seq in Hk as [-> _]. simpl in Ha. by injection Ha as <-.
Qed.

Lemma shiftr_words (i j : Z) :
  Z.shiftr (base_address + 4 * j - (base_address + 4 * i) - 4) 2 = j - i - 1.
Proof.
  rewrite Z.shiftr_div_pow2 by lia.
  replace (base_address + 4 * j - (base_address + 4 * i) - 4)
    with ((j - i - 1) * 2 ^ 2) by lia.
  apply Z.div_mul. lia.
Qed.

End Passes.

(** ** Properties of the two passes together *)

(** X24. Every address in the label table is the address of a record or
    the address just behind the last record: no label points outside the
    program. *)
Theorem label_points_at_record (lines : list string) (lbl : string) (a : Z) :
  (parse_source_code lines).1 !! lbl = Some a →
  ∃ j : nat,
    (j ≤ List.length (parse_source_code lines).2)%nat
    ∧ a = 0x00400000 + 4 * Z.of_nat j.
Proof.
  intros Hlbl.
  destruct (last_definition lines lbl a Hlbl)
    as (pre & line & post & -> & Hdef & Hpost).
  destruct (bound_address pre post line lbl Hdef Hpost)
    as (Hbefore & Hbound & later & Hlater & _).
  rewrite Hbound in Hlbl. injection Hlbl as <-.
  exists (List.length (parse_source_code pre).2). split; [|done].
  rewrite Hlater, length_app. lia.
Qed.

Lemma label_points_at_record_witness :
  ∃ j : nat,
    (j ≤ List.length (parse_source_code ["ADD $1, $2, $3"; "END:"]).2)%nat
    ∧ 0x00400004 = 0x00400000 + 4 * Z.of_nat j.
Proof.
  apply (label_points_at_record ["ADD $1, $2, $3"; "END:"] "END" 0x00400004).
  reflexivity.
Defined.

(** X25. In an assembled program the offset field of a BEQ or BNE counts
    records: for the branch at index [i] and a label bound to the record
    at index [j], the field stands for [j - i - 1], the distance from the
    record behind the branch, as a 16-bit two's-complement number. *)
Theorem branch_offset_counts_records
    (lines : list string) (i j : nat) (a : Z)
    (text op rt rs lbl frt frs : string) (more : list string) :
  (parse_source_code lines).2 !! i = Some (a, text) →
  re_split text = op :: rt :: rs :: lbl :: more →
  upper op = "BEQ" ∨ upper op = "BNE" →
  reg_to_bin rt = Ok frt → reg_to_bin rs = Ok frs →
  (parse_source_code lines).1 !! lbl = Some (0x00400000 + 4 * Z.of_nat j) →
  ∃ opc offset_field,
    instruction_to_machine_code text (parse_source_code lines).1 a
    = Ok (Some (opc +:+ frs +:+ frt +:+ offset_field))
    ∧ field 16 (Z.land (Z.of_nat j - Z.of_nat i - 1) 0xFFFF) offset_field
    ∧ (- 2 ^ 15 ≤ Z.of_nat j - Z.of_nat i - 1 < 2 ^ 15 →
       signed16 (bin_value offset_field) = Z.of_nat j - Z.of_nat i - 1).
Proof.
  intros Hi Htok Hop Hrt Hrs Hlbl.
  apply record_address in Hi as ->.
  assert (∃ opc, instruction_set I !! upper op = Some opc
                 ∧ in_list (upper op) ["LW"; "SW"] = false
                 ∧ in_list (upper op) ["BEQ"; "BNE"] = true)
    as (opc & Hopc & Hlw & Hbr)
    by (destruct Hop as [-> | ->]; eexists; split_and!; reflexivity).
  pose proof (format_b_field 16 _ ltac:(lia)
                (mask16_range (Z.of_nat j - Z.of_nat i - 1))) as Foff.
  exists opc, (format_b 16 (Z.land (Z.of_nat j - Z.of_nat i - 1) 0xFFFF)).
  split_and!; [|done|].
  - rewrite (i_type_code _ _ _ _ _ _ Htok Hopc), Hlw, Hbr.
    rewrite !getitem_S, !getitem_0, !bind_ok, Hrt, Hrs, !bind_ok.
    rewrite (getkey_ok _ _ _ Hlbl), bind_ok.
    change 0x00400000 with base_address. by rewrite shiftr_words.
  - intros Hfits. destruct Foff as (_ & _ & ->). by apply signed16_mask.
Qed.

Lemma branch_offset_counts_records_witness :
  let lines := ["ADDI $8, $0, 5"; "LOOP: ADDI $8, $8, -1";
                "BNE $8, $0, LOOP"; "BEQ $0, $0, END"; "ADD $1, $2, $3";
                "END:"] in
  ∃ opc offset_field,
    instruction_to_machine_code "BEQ $0, $0, END" (parse_source_code lines).1
      0x0040000C
    = Ok (Some (opc +:+ "00000" +:+ "00000" +:+ offset_field))
    ∧ field 16 (Z.land (Z.of_nat 5 - Z.of_nat 3 - 1) 0xFFFF) offset_field
    ∧ (- 2 ^ 15 ≤ Z.of_nat 5 - Z.of_nat 3 - 1 < 2 ^ 15 →
       signed16 (bin_value offset_field) = Z.of_nat 5 - Z.of_nat 3 - 1).
Proof.
  intros lines.
  apply (branch_offset_counts_records lines 3 5 0x0040000C
           "BEQ $0, $0, END" "BEQ" "$0" "$0" "END" "00000" "00000" []).
  - reflexivity.
  - reflexivity.
  - by left.
  - reflexivity.
  - reflexivity.
  - reflexivity.
Defined.

(** X26. In an assembled program the address field of a J counts records
    as well: for a label bound to the record at index [j], with the
    program below address 2^28, the field stands for [0x100000 + j]. *)
Theorem jump_target_counts_records
    (lines : list string) (j : nat) (a : Z)
    (text op lbl : string) (more : list string) :
  re_split text = op :: lbl :: more →
  upper op = "J" →
  (parse_source_code lines).1 !! lbl = Some (0x00400000 + 4 * Z.of_nat j) →
  0x00400000 + 4 * Z.of_nat j < 2 ^ 28 →
  ∃ target_field,
    instruction_to_machine_code text (parse_source_code lines).1 a
    = Ok (Some ("000010" +:+ target_field))
    ∧ field 26 (0x100000 + Z.of_nat j) target_field.
Proof.
  intros Htok Hop Hlbl Hrange.
  assert (instruction_set J !! upper op = Some "000010") as Hopc
    by (by rewrite Hop).
  assert (Z.shiftr (0x00400000 + 4 * Z.of_nat j) 2 = 0x100000 + Z.of_nat j)
    as Hshift.
  { rewrite Z.shiftr_div_pow2 by lia.
    replace (0x00400000 + 4 * Z.of_nat j)
      with ((0x100000 + Z.of_nat j) * 2 ^ 2) by lia.
    apply Z.div_mul. lia. }
  exists (format_b 26 (0x100000 + Z.of_nat j)). split.
  - rewrite (j_type_code _ _ _ _ _ _ Htok Hopc).
    by rewrite getitem_0, bind_ok, (getkey_ok _ _ _ Hlbl), bind_ok, Hshift.
  - apply format_b_field; [lia|]. simpl Z.of_nat. lia.
Qed.

Lemma jump_target_counts_records_witness :
  ∃ target_field,
    instruction_to_machine_code "J END"
      (parse_source_code ["J END"; "ADD $1, $2, $3"; "END: J END"]).1 0x00400000
    = Ok (Some ("000010" +:+ target_field))
    ∧ field 26 (0x100000 + Z.of_nat 2) target_field.
Proof.
  apply (jump_target_counts_records
           ["J END"; "ADD $1, $2, $3"; "END: J END"] 2 0x00400000
           "J END" "J" "END" []).
  - reflexivity.
  - reflexivity.
  - reflexivity.
  - simpl. lia.
Defined.
